(** * Clickmesh chat API: a shallow embedding of [server.js]

    The development follows the order of the source file: strings and
    JSON values as JavaScript sees them, the environment and the origin
    allow-list, the middleware stack of [/api/chat], the two halves of
    the chat handler (before and after the awaited completion call), the
    session map, and finally the event-loop view in which several
    requests are in flight at once.  The repository also keeps two
    earlier revisions of the file (one that lets requests without an
    Origin through, one without token or validation); what is embedded
    first is server.js, and the two revisions follow as far as they
    differ from it. *)

From Stdlib Require Import String Ascii.
From Stdlib Require Import List Bool Arith NArith ZArith Lia.
Import ListNotations.

Set Implicit Arguments.
Set Warnings "-register-all".

(** ** JavaScript strings

    A JavaScript string is a sequence of UTF-16 code units; [length]
    counts code units and [trim] looks at code units. *)

Definition code_unit := N.
Definition jsstring := list code_unit.

(** String literals of the source are written here as UTF-8 text and
    decoded to code units. *)
Fixpoint utf16_of_utf8 (bs : list N) : jsstring :=
  match bs with
  | [] => []
  | b0 :: r0 =>
      if (b0 <? 128)%N then b0 :: utf16_of_utf8 r0
      else if (b0 <? 224)%N then
        match r0 with
        | b1 :: r1 => ((b0 - 192) * 64 + (b1 - 128))%N :: utf16_of_utf8 r1
        | [] => []
        end
      else if (b0 <? 240)%N then
        match r0 with
        | b1 :: b2 :: r2 =>
            ((b0 - 224) * 4096 + (b1 - 128) * 64 + (b2 - 128))%N
              :: utf16_of_utf8 r2
        | _ => []
        end
      else
        match r0 with
        | b1 :: b2 :: b3 :: r3 =>
            let cp := ((b0 - 240) * 262144 + (b1 - 128) * 4096
                       + (b2 - 128) * 64 + (b3 - 128))%N in
            let v := (cp - 65536)%N in
            (55296 + v / 1024)%N :: (56320 + v mod 1024)%N
              :: utf16_of_utf8 r3
        | _ => []
        end
  end.

Definition js (s : string) : jsstring :=
  utf16_of_utf8 (map N_of_ascii (list_ascii_of_string s)).

Fixpoint jsstring_eqb (a b : jsstring) : bool :=
  match a, b with
  | [], [] => true
  | x :: a', y :: b' => (x =? y)%N && jsstring_eqb a' b'
  | _, _ => false
  end.

(** [s.startsWith(p)] *)
Fixpoint startsWith (p s : jsstring) : bool :=
  match p, s with
  | [], _ => true
  | x :: p', y :: s' => (x =? y)%N && startsWith p' s'
  | _ :: _, [] => false
  end.

(** ECMAScript WhiteSpace and LineTerminator code points, the ones
    [String.prototype.trim] strips. *)
Definition is_whitespace (c : code_unit) : bool :=
  ((9 <=? c) && (c <=? 13)
   || (c =? 32) || (c =? 160) || (c =? 5760)
   || (8192 <=? c) && (c <=? 8202)
   || (c =? 8232) || (c =? 8233) || (c =? 8239) || (c =? 8287)
   || (c =? 12288) || (c =? 65279))%N.

Fixpoint trimStart (s : jsstring) : jsstring :=
  match s with
  | [] => []
  | c :: s' => if is_whitespace c then trimStart s' else s
  end.

Definition trimEnd (s : jsstring) : jsstring := rev (trimStart (rev s)).

(** [s.trim()] *)
Definition trim (s : jsstring) : jsstring := trimEnd (trimStart s).

(** [s.split(",")]: the pieces between the separators; the empty string
    splits into one empty piece. *)
Fixpoint split (sep : code_unit) (s : jsstring) : list jsstring :=
  match s with
  | [] => [[]]
  | c :: s' =>
      if (c =? sep)%N then [] :: split sep s'
      else match split sep s' with
           | piece :: rest => (c :: piece) :: rest
           | [] => [[c]]
           end
  end.

Definition comma : code_unit := 44%N.

(** Truthiness of a string-or-undefined value, as in [!origin],
    [!expected], [.filter(Boolean)]. *)
Definition nonempty (s : jsstring) : bool :=
  match s with [] => false | _ :: _ => true end.

Definition truthy_str (o : option jsstring) : bool :=
  match o with Some s => nonempty s | None => false end.

(** ** JSON values

    [req.body] and the completion object are results of [JSON.parse].
    A number is carried as the text [Number::toString] prints for it:
    this text is all the program observes of a number, JSON has no NaN,
    and both zeros print as [0]. An object keeps its members in source
    order; on a repeated key the last member wins, as in [JSON.parse].
    [None : option json] stands for [undefined]. *)

Inductive json : Type :=
| JNull
| JBool (b : bool)
| JNum (repr : jsstring)
| JStr (s : jsstring)
| JArr (items : list json)
| JObj (members : list (jsstring * json)).

Definition jsvalue := option json.

Fixpoint own_property (k : jsstring) (members : list (jsstring * json))
  : jsvalue :=
  match members with
  | [] => None
  | (k', v) :: rest =>
      match own_property k rest with
      | Some later => Some later
      | None => if jsstring_eqb k k' then Some v else None
      end
  end.

Definition has_own (k : jsstring) (members : list (jsstring * json)) : bool :=
  match own_property k members with Some _ => true | None => false end.

(** ToBoolean *)
Definition truthy (v : jsvalue) : bool :=
  match v with
  | None => false
  | Some JNull => false
  | Some (JBool b) => b
  | Some (JNum r) => negb (jsstring_eqb r (js "0"))
  | Some (JStr s) => nonempty s
  | Some (JArr _) => true
  | Some (JObj _) => true
  end.

(** [a || b] on values *)
Definition js_or (a : jsvalue) (b : json) : json :=
  match a with
  | Some v => if truthy a then v else b
  | None => b
  end.

(** [String(v)].  [None] is a thrown [TypeError]: a parsed object whose
    own [toString] member shadows [Object.prototype.toString] has no
    callable [toString], and [valueOf] (own and not callable, or the
    inherited one, which returns the object) yields no primitive.
    An array prints its elements joined by commas, [null] elements as
    the empty string. *)
Fixpoint ToString (v : json) : option jsstring :=
  match v with
  | JNull => Some (js "null")
  | JBool true => Some (js "true")
  | JBool false => Some (js "false")
  | JNum r => Some r
  | JStr s => Some s
  | JArr items =>
      (fix join (l : list json) : option jsstring :=
         match l with
         | [] => Some []
         | x :: rest =>
             let head := match x with JNull => Some [] | _ => ToString x end in
             match head, join rest with
             | Some a, Some b =>
                 Some (a ++ match rest with [] => b | _ :: _ => comma :: b end)
             | _, _ => None
             end
         end) items
  | JObj members =>
      if has_own (js "toString") members then None
      else Some (js "[object Object]")
  end.

(** [v.name] for a value that is neither [null] nor [undefined], where
    [name] is none of the names the prototypes define ([choices],
    [message], [content], [sessionId]). *)
Definition get_member (name : jsstring) (v : json) : jsvalue :=
  match v with
  | JObj members => own_property name members
  | _ => None
  end.

(** [v[0]] for a value that is neither [null] nor [undefined]. *)
Definition get_index0 (v : json) : jsvalue :=
  match v with
  | JArr items => match items with x :: _ => Some x | [] => None end
  | JStr s => match s with c :: _ => Some (JStr [c]) | [] => None end
  | JObj members => own_property (js "0") members
  | _ => None
  end.

(** Optional chaining [a?.f]: short-circuits on [null] and [undefined]. *)
Definition opt_chain (a : jsvalue) (f : json -> jsvalue) : jsvalue :=
  match a with
  | None => None
  | Some JNull => None
  | Some v => f v
  end.

(** ** Environment and origin allow-list (server.js, section 1) *)

(** [process.env]: a variable is unset ([None]) or holds a string. *)
Record env := {
  ALLOWED_ORIGINS : option jsstring;
  WIDGET_TOKEN : option jsstring;
  OPENAI_API_KEY : option jsstring
}.

Definition defaultAllowed : list jsstring :=
  [ js "https://automatizacionesbilbao.es";
    js "https://www.automatizacionesbilbao.es" ].

Definition allowedFromEnv (E : env) : list jsstring :=
  filter nonempty
    (map trim
       (split comma
          (match ALLOWED_ORIGINS E with
           | Some s => if nonempty s then s else []
           | None => []
           end))).

(** [new Set(...)], kept as the list of what is put into it.  The
    program only asks the set for membership; an origin named twice is
    in the set once. *)
Definition allowedOrigins (E : env) : list jsstring :=
  match allowedFromEnv E with
  | [] => defaultAllowed
  | _ :: _ => allowedFromEnv E
  end.

(** [allowedOrigins.has(origin)] *)
Definition has (set : list jsstring) (x : jsstring) : bool :=
  existsb (jsstring_eqb x) set.

Definition isAllowedOrigin (E : env) (origin : option jsstring) : bool :=
  match origin with
  | Some o => nonempty o && has (allowedOrigins E) o
  | None => false
  end.

(** ** Requests and responses *)

Record request := {
  ip : jsstring;                      (* client address, the limiter key *)
  arrival : Z;                        (* arrival time, in milliseconds *)
  origin_header : option jsstring;    (* req.headers.origin *)
  widget_token : option jsstring;     (* req.headers["x-widget-token"] *)
  body : jsvalue                      (* req.body, already parsed *)
}.

(** What [res.status(n).json({reply, sessionId})] is given: the status
    and the two members of the object.  The client reads [sessionId]
    back as it is when it is a string; [JSON.stringify] writes a number
    that is not finite as [null].  A response whose body is written by a
    package, not by server.js, has no [reply]. *)
Record response := {
  status : nat;
  reply : option jsstring;
  sessionId : jsvalue
}.

Definition json_reply (code : nat) (text : jsstring) : response :=
  {| status := code; reply := Some text; sessionId := None |}.

(** ** CORS on [/api] (section 2) and its error handler (section 9) *)

(** The [origin] callback: [None] is [cb(null, true)], [Some m] is
    [cb(new Error(m), false)]. *)
Definition cors_origin (E : env) (origin : option jsstring)
  : option jsstring :=
  if negb (truthy_str origin) then Some (js "CORS: missing origin")
  else if isAllowedOrigin E origin then None
  else Some (js "CORS: origin not allowed").

(** Express's own last-resort handler, reached through [next(err)]. *)
Definition express_default_error : response :=
  {| status := 500; reply := None; sessionId := None |}.

Definition error_handler (msg : jsstring) : response :=
  if startsWith (js "CORS:") msg
  then json_reply 403 (js "Origen no permitido.")
  else express_default_error.

(** ** Rate limit (section 3) *)

Definition windowMs : Z := 60 * 1000.
Definition max : nat := 20.

Record bucket := { hits : nat; resetTime : Z }.

Definition limiter := list (jsstring * bucket).

Fixpoint bucket_of (key : jsstring) (L : limiter) : option bucket :=
  match L with
  | [] => None
  | (k, b) :: rest => if jsstring_eqb key k then Some b else bucket_of key rest
  end.

Fixpoint put_bucket (key : jsstring) (b : bucket) (L : limiter) : limiter :=
  match L with
  | [] => [(key, b)]
  | (k, b') :: rest =>
      if jsstring_eqb key k then (k, b) :: rest
      else (k, b') :: put_bucket key b rest
  end.

(** Modelled from the spec: the body of the limiter is the third-party
    express-rate-limit package, which is not part of the repository;
    server.js only configures it ([windowMs], [max]).  The spec's words:
    a fixed budget of [max] requests per [windowMs] window per client
    address, excess requests rejected, and a window that resets.  Each
    address has a hit counter and the time its window ends; a request
    that arrives at or after that time opens a new window.  The result
    is the new limiter state and whether the request goes on. *)
Definition chatLimiter (L : limiter) (key : jsstring) (now : Z)
  : limiter * bool :=
  let b :=
    match bucket_of key L with
    | Some b =>
        if (now <? resetTime b)%Z
        then {| hits := S (hits b); resetTime := resetTime b |}
        else {| hits := 1; resetTime := (now + windowMs)%Z |}
    | None => {| hits := 1; resetTime := (now + windowMs)%Z |}
    end in
  (put_bucket key b L, hits b <=? max).

(** Modelled from the spec: the rate-limit signal of a stopped request
    is status 429; its body is the package's. *)
Definition too_many_requests : response :=
  {| status := 429; reply := None; sessionId := None |}.

(** ** Sessions in memory and the system prompt (sections 4 and 5) *)

Inductive Role := system | user | assistant.

Record turn := { role : Role; content : jsstring }.

(** A session key is whatever [sessionId || uuidv4()] evaluates to. *)
Definition session_map := list (json * list turn).

(** SameValueZero between a key of the map and the key of a later
    request.  Arrays and objects are compared by identity, and every
    request parses its own body, so they are never the same. *)
Definition same_key (a b : json) : bool :=
  match a, b with
  | JStr x, JStr y => jsstring_eqb x y
  | JNum x, JNum y => jsstring_eqb x y
  | JBool x, JBool y => Bool.eqb x y
  | JNull, JNull => true
  | _, _ => false
  end.

(** [sessions.get(sid)] *)
Fixpoint Map_get (sid : json) (sessions : session_map) : option (list turn) :=
  match sessions with
  | [] => None
  | (k, h) :: rest => if same_key k sid then Some h else Map_get sid rest
  end.

(** [sessions.set(sid, h)]: overwrite in place, or insert at the end. *)
Fixpoint Map_set (sid : json) (h : list turn) (sessions : session_map)
  : session_map :=
  match sessions with
  | [] => [(sid, h)]
  | (k, h') :: rest =>
      if same_key k sid then (k, h) :: rest
      else (k, h') :: Map_set sid h rest
  end.

(** [a.slice(-n)] *)
Definition slice_last {A : Type} (n : nat) (a : list A) : list A :=
  skipn (length a - n) a.

Definition systemPrompt : jsstring := js "
Eres el asistente de la web de Clickmesh (automatización y soluciones digitales).
Objetivo: resolver dudas y, cuando haya intención comercial, convertirla en lead cualificado.

Estilo:
- Profesional, claro, sin exageraciones.
- Respuestas directas, con pasos accionables.
- Si falta información, pregunta solo lo mínimo.

Reglas:
- No inventes precios, plazos, resultados garantizados ni tecnologías no confirmadas.
- Si el usuario pide presupuesto o muestra intención de contratar, pide:
  (1) Nombre, (2) Empresa, (3) Email, (4) Teléfono, (5) Proceso a automatizar, (6) Herramientas que usa (si lo sabe).
- Si el usuario quiere hablar con una persona, ofrece contacto y sugiere agendar.
- Si la consulta es poco concreta, guía con 2-3 preguntas cerradas.
- Si hay dudas sobre LOPDGDD o RGPD, responde de forma general y sugiere consulta profesional.

Importante:
- Si el usuario aporta datos personales, trátalos con discreción y no los repitas innecesariamente.
".

(** ** Widget token middleware (section 7) *)

(** [None] is [next()]. *)
Definition requireWidgetToken (E : env) (req : request) : option response :=
  let expected := WIDGET_TOKEN E in
  if negb (truthy_str expected)
  then Some (json_reply 500 (js "Falta configurar WIDGET_TOKEN en el servidor."))
  else
    let provided := widget_token req in
    if negb (truthy_str provided)
       || negb (match provided, expected with
                | Some p, Some x => jsstring_eqb p x
                | _, _ => false
                end)
    then Some (json_reply 401 (js "No autorizado."))
    else None.

(** ** Chat endpoint (section 8)

    The handler is an [async] function with one [await]: it runs up to
    the completion call, gives control back to the event loop, and goes
    on when the call settles.  The two halves are two functions; what
    the second half still needs of the first is a [pending] record. *)

Record pending := {
  sid : json;
  trimmedHistory : list turn;
  text : jsstring;
  messages : list turn            (* what is sent to the provider *)
}.

Inductive progress :=
| Done (r : response)             (* answered without calling the provider *)
| Await (p : pending).            (* [client.chat.completions.create] called *)

Definition generic_error : response :=
  json_reply 500 (js "Ha ocurrido un error. Inténtalo de nuevo en unos segundos.").

(** [const { message, sessionId } = req.body || {}] *)
Definition body_field (name : jsstring) (req : request) : jsvalue :=
  match body req with
  | Some b => if truthy (body req) then get_member name b else None
  | None => None
  end.

(** [uuid] is what [uuidv4()] returns if this request calls it. *)
Definition chat_handler_before_await
    (E : env) (sessions : session_map) (req : request) (uuid : jsstring)
  : progress :=
  let origin := origin_header req in
  if negb (isAllowedOrigin E origin)
  then Done (json_reply 403 (js "Origen no permitido."))
  else
    let message := body_field (js "message") req in
    let sessionId := body_field (js "sessionId") req in
    if negb (truthy_str (OPENAI_API_KEY E))
    then Done (json_reply 500 (js "Falta configurar OPENAI_API_KEY en el servidor."))
    else
      match ToString (js_or message (JStr [])) with
      | None => Done generic_error          (* TypeError, caught *)
      | Some coerced =>
          let text := trim coerced in
          if negb (nonempty text)
          then Done (json_reply 400 (js "Escribe un mensaje para poder ayudarte."))
          else if 2000 <? length text
          then Done (json_reply 400
                 (js "El mensaje es demasiado largo. Resúmelo un poco, por favor."))
          else
            let sid := js_or sessionId (JStr uuid) in
            let history :=
              match Map_get sid sessions with Some h => h | None => [] end in
            let trimmedHistory := slice_last 12 history in
            let messages :=
              {| role := system; content := systemPrompt |}
                :: trimmedHistory
                ++ [{| role := user; content := text |}] in
            Await {| sid := sid; trimmedHistory := trimmedHistory;
                     text := text; messages := messages |}
      end.

(** How the awaited call settles. *)
Inductive settlement :=
| Rejected                                (* the call threw *)
| Resolved (completion : jsvalue).

(** [completion.choices?.[0]?.message?.content?.trim() || "No he ..."];
    [None] is a thrown [TypeError] ([completion] is [null], or the
    content is neither a string nor nullish and has no [trim] to call). *)
Definition completion_reply (completion : jsvalue) : option jsstring :=
  let fallback := js "No he podido responder ahora mismo." in
  match completion with
  | None | Some JNull => None
  | Some c =>
      let choices := get_member (js "choices") c in
      let first := opt_chain choices get_index0 in
      let message := opt_chain first (get_member (js "message")) in
      let content := opt_chain message (get_member (js "content")) in
      match content with
      | None | Some JNull => Some fallback
      | Some (JStr s) =>
          let t := trim s in Some (if nonempty t then t else fallback)
      | Some _ => None
      end
  end.

Definition chat_handler_after_await
    (sessions : session_map) (p : pending) (outcome : settlement)
  : session_map * response :=
  match outcome with
  | Rejected => (sessions, generic_error)
  | Resolved completion =>
      match completion_reply completion with
      | None => (sessions, generic_error)
      | Some reply =>
          (Map_set (sid p)
             (trimmedHistory p
                ++ [ {| role := user; content := text p |};
                     {| role := assistant; content := reply |} ])
             sessions,
           {| status := 200; reply := Some reply; sessionId := Some (sid p) |})
      end
  end.

(** [app.post("/api/chat", requireWidgetToken, async (req, res) => ...)] *)
Definition post_api_chat
    (E : env) (sessions : session_map) (req : request) (uuid : jsstring)
  : progress :=
  match requireWidgetToken E req with
  | Some r => Done r
  | None => chat_handler_before_await E sessions req uuid
  end.

(** The stack a POST to [/api/chat] goes through, in registration order:
    CORS on [/api] (an error goes to the error handler), the limiter on
    [/api/chat], then the route.  The body parser runs before all of
    them; a request here is one whose body it has parsed. *)
Definition app
    (E : env) (L : limiter) (sessions : session_map)
    (req : request) (uuid : jsstring)
  : limiter * progress :=
  match cors_origin E (origin_header req) with
  | Some err => (L, Done (error_handler err))
  | None =>
      let (L', admitted) := chatLimiter L (ip req) (arrival req) in
      if admitted then (L', post_api_chat E sessions req uuid)
      else (L', Done too_many_requests)
  end.

(** ** The server as a transition system

    Requests arrive and completion calls settle in any order. *)

Record server := {
  sessions_of : session_map;
  limiter_of : limiter;
  in_flight : list pending
}.

Definition boot : server :=
  {| sessions_of := []; limiter_of := []; in_flight := [] |}.

Inductive event :=
| Arrives (req : request) (uuid : jsstring)
| Settles (i : nat) (outcome : settlement).   (* the i-th call in flight *)

Fixpoint remove_nth {A : Type} (i : nat) (l : list A) : list A :=
  match i, l with
  | _, [] => []
  | O, _ :: l' => l'
  | S i', x :: l' => x :: remove_nth i' l'
  end.

Definition step (E : env) (st : server) (ev : event)
  : server * option response :=
  match ev with
  | Arrives req uuid =>
      match app E (limiter_of st) (sessions_of st) req uuid with
      | (L', Done r) =>
          ({| sessions_of := sessions_of st; limiter_of := L';
              in_flight := in_flight st |}, Some r)
      | (L', Await p) =>
          ({| sessions_of := sessions_of st; limiter_of := L';
              in_flight := in_flight st ++ [p] |}, None)
      end
  | Settles i outcome =>
      match nth_error (in_flight st) i with
      | None => (st, None)
      | Some p =>
          let (sessions', r) :=
            chat_handler_after_await (sessions_of st) p outcome in
          ({| sessions_of := sessions'; limiter_of := limiter_of st;
              in_flight := remove_nth i (in_flight st) |}, Some r)
      end
  end.

Fixpoint run (E : env) (st : server) (evs : list event) : server :=
  match evs with
  | [] => st
  | ev :: evs' => run E (fst (step E st ev)) evs'
  end.

Inductive reachable (E : env) : server -> Prop :=
| reachable_boot : reachable E boot
| reachable_step st ev :
    reachable E st -> reachable E (fst (step E st ev)).

(** ** Vocabulary of the statements *)

Definition user_turn (t : jsstring) : turn := {| role := user; content := t |}.
Definition assistant_turn (t : jsstring) : turn :=
  {| role := assistant; content := t |}.

(** [sessions.get(sid) || []] *)
Definition history_of (k : json) (m : session_map) : list turn :=
  match Map_get k m with Some h => h | None => [] end.

(** The history [h] is in the map under [k]; a later request that sends
    the same primitive key reads it back. *)
Definition stored_as (k : json) (h : list turn) (m : session_map) : Prop :=
  In (k, h) m /\ (same_key k k = true -> Map_get k m = Some h).

(** What holds of every history the server ever stores. *)
Definition history_ok (h : list turn) : Prop :=
  length h <= 14 /\ Nat.Even (length h)
  /\ exists earlier t r, h = earlier ++ [user_turn t; assistant_turn r].

Definition pending_ok (p : pending) : Prop :=
  length (trimmedHistory p) <= 12 /\ Nat.Even (length (trimmedHistory p)).

Definition server_ok (st : server) : Prop :=
  Forall (fun kh => history_ok (snd kh)) (sessions_of st)
  /\ Forall pending_ok (in_flight st).

(** The source's [text]: [String(message || "").trim()], when the
    coercion does not throw. *)
Definition message_text (req : request) : option jsstring :=
  option_map trim
    (ToString (js_or (body_field (js "message") req) (JStr []))).

Arguments js _ : simpl never.
Arguments systemPrompt : simpl never.

(** ** Sample configuration and traffic *)

Definition demo_env : env :=
  {| ALLOWED_ORIGINS := None;
     WIDGET_TOKEN := Some (js "widget-secret");
     OPENAI_API_KEY := Some (js "sk-demo") |}.

Definition demo_key : json := JStr (js "s-1").

Definition demo_request (now : Z) (message : jsvalue) : request :=
  {| ip := js "203.0.113.7";
     arrival := now;
     origin_header := Some (js "https://automatizacionesbilbao.es");
     widget_token := Some (js "widget-secret");
     body := Some (JObj (match message with
                         | Some m => [(js "message", m)]
                         | None => []
                         end ++ [(js "sessionId", demo_key)])) |}.

Definition demo_completion (answer : jsstring) : jsvalue :=
  Some (JObj [(js "choices",
               JArr [JObj [(js "index", JNum (js "0"));
                           (js "message",
                            JObj [(js "role", JStr (js "assistant"));
                                  (js "content", JStr answer)])]])]).

Definition hola : request := demo_request 0 (Some (JStr (js "Hola"))).

Definition hola_pending : pending :=
  {| sid := demo_key;
     trimmedHistory := [];
     text := js "Hola";
     messages := [ {| role := system; content := systemPrompt |};
                   user_turn (js "Hola") ] |}.

(** One request answered before the next one arrives. *)
Definition exchange (now : Z) : list event :=
  [ Arrives (demo_request now (Some (JStr (js "Hola")))) (js "fresh-uuid");
    Settles 0 (Resolved (demo_completion (js "Buenas"))) ].

Definition seven_exchanges : list event :=
  concat (map exchange [0; 1000; 2000; 3000; 4000; 5000; 6000]%Z).

Definition unauthorized : response := json_reply 401 (js "No autorizado.").
Definition forbidden_origin : response :=
  json_reply 403 (js "Origen no permitido.").
Definition missing_widget_token : response :=
  json_reply 500 (js "Falta configurar WIDGET_TOKEN en el servidor.").

(** The awaited call did not give a usable completion: it threw, or
    reading the reply out of what it returned threw. *)
Definition upstream_failure (outcome : settlement) : Prop :=
  match outcome with
  | Rejected => True
  | Resolved completion => completion_reply completion = None
  end.

Definition no_header (now : Z) : request :=
  {| ip := js "203.0.113.7"; arrival := now;
     origin_header := None; widget_token := None;
     body := Some (JObj [(js "message", JStr (js "Hola"))]) |}.

Definition no_token : request :=
  {| ip := js "203.0.113.7"; arrival := 0;
     origin_header := Some (js "https://automatizacionesbilbao.es");
     widget_token := None;
     body := Some (JObj [(js "message", JStr (js "Hola"))]) |}.

Definition no_secret_env : env :=
  {| ALLOWED_ORIGINS := None; WIDGET_TOKEN := None;
     OPENAI_API_KEY := Some (js "sk-demo") |}.

Definition empty_message : response :=
  json_reply 400 (js "Escribe un mensaje para poder ayudarte.").
Definition message_too_long : response :=
  json_reply 400
    (js "El mensaje es demasiado largo. Resúmelo un poco, por favor.").

Definition letters (n : nat) : jsstring := repeat 97%N n.

Definition hola_arrived : server :=
  {| sessions_of := [];
     limiter_of := [(js "203.0.113.7", {| hits := 1; resetTime := 60000 |})];
     in_flight := [hola_pending] |}.

(** Requests reaching the limiter, as (address, arrival time) pairs
    served in order. *)
Fixpoint limiter_after (L : limiter) (reqs : list (jsstring * Z)) : limiter :=
  match reqs with
  | [] => L
  | (k, t) :: rest => limiter_after (fst (chatLimiter L k t)) rest
  end.

Fixpoint requests_for (key : jsstring) (reqs : list (jsstring * Z)) : nat :=
  match reqs with
  | [] => 0
  | (k, _) :: rest =>
      (if jsstring_eqb k key then 1 else 0) + requests_for key rest
  end.

Fixpoint admitted_for (key : jsstring) (L : limiter)
    (reqs : list (jsstring * Z)) : nat :=
  match reqs with
  | [] => 0
  | (k, t) :: rest =>
      (if jsstring_eqb k key && snd (chatLimiter L k t) then 1 else 0)
      + admitted_for key (fst (chatLimiter L k t)) rest
  end.

(** A request of [key] arriving at [t0] starts a window: the address
    has no window yet, or its window is over. *)
Definition window_opens (key : jsstring) (L : limiter) (t0 : Z) : Prop :=
  match bucket_of key L with
  | Some b => (resetTime b <= t0)%Z
  | None => True
  end.

Definition demo_ip : jsstring := js "203.0.113.7".

(** Twenty requests of one address, one per second from second 1 on,
    with a request of another address among them. *)
Definition burst : list (jsstring * Z) :=
  (js "198.51.100.9", 500%Z)
    :: map (fun i => (demo_ip, (Z.of_nat i * 1000)%Z)) (seq 1 20).

(** ** Vocabulary of the further properties *)

(** [pieces.join(",")] *)
Fixpoint join (sep : code_unit) (pieces : list jsstring) : jsstring :=
  match pieces with
  | [] => []
  | p :: rest =>
      match rest with
      | [] => p
      | _ :: _ => p ++ sep :: join sep rest
      end
  end.

(** Only white space, or nothing. *)
Definition blank (s : jsstring) : bool := forallb is_whitespace s.

(** Only commas and white space, or nothing: a value of ALLOWED_ORIGINS
    that names no origin. *)
Definition separators_only (s : jsstring) : bool :=
  forallb (fun c => (c =? comma)%N || is_whitespace c) s.

(** [process.env.ALLOWED_ORIGINS || ""] *)
Definition origins_text (E : env) : jsstring :=
  match ALLOWED_ORIGINS E with Some s => s | None => [] end.

Definition two_origins_env : env :=
  {| ALLOWED_ORIGINS := Some (js " https://a.example ,, https://b.example");
     WIDGET_TOKEN := Some (js "widget-secret");
     OPENAI_API_KEY := Some (js "sk-demo") |}.

Definition missing_api_key : response :=
  json_reply 500 (js "Falta configurar OPENAI_API_KEY en el servidor.").

Definition fallback_reply : jsstring := js "No he podido responder ahora mismo.".

(** The requests of a trace that get past the CORS layer, as the
    limiter sees them. *)
Fixpoint reaching_limiter (E : env) (evs : list event)
  : list (jsstring * Z) :=
  match evs with
  | [] => []
  | Arrives req _ :: rest =>
      if isAllowedOrigin E (origin_header req)
      then (ip req, arrival req) :: reaching_limiter E rest
      else reaching_limiter E rest
  | Settles _ _ :: rest => reaching_limiter E rest
  end.

(** Twenty requests of one address in twenty seconds, from an allowed
    origin but without a token. *)
Definition tokenless (now : Z) : request :=
  {| ip := js "203.0.113.7"; arrival := now;
     origin_header := Some (js "https://automatizacionesbilbao.es");
     widget_token := None;
     body := Some (JObj [(js "message", JStr (js "Hola"))]) |}.

Definition tokenless_burst : list event :=
  map (fun i => Arrives (tokenless (Z.of_nat i * 1000)) (js "fresh-uuid"))
    (seq 1 19).

(** [completion.choices?.[0]?.message?.content] of a completion that is
    not [null]. *)
Definition first_choice_content (c : json) : jsvalue :=
  opt_chain
    (opt_chain (opt_chain (get_member (js "choices") c) get_index0)
       (get_member (js "message")))
    (get_member (js "content")).

Definition role_eqb (a b : Role) : bool :=
  match a, b with
  | system, system | user, user | assistant, assistant => true
  | _, _ => false
  end.

(** A text as the handler lets it through: not empty, at most 2000 code
    units, no surrounding white space. *)
Definition valid_text (t : jsstring) : bool :=
  nonempty t && (length t <=? 2000) && jsstring_eqb (trim t) t.

(** A reply as the handler sends it: not empty, no surrounding white
    space. *)
Definition valid_reply (r : jsstring) : bool :=
  nonempty r && jsstring_eqb (trim r) r.

(** A history made of exchanges: a user turn with a valid text, then an
    assistant turn with a valid reply, any number of times. *)
Fixpoint exchanges (h : list turn) : bool :=
  match h with
  | [] => true
  | u :: after_u =>
      match after_u with
      | [] => false
      | a :: rest =>
          role_eqb (role u) user && valid_text (content u)
          && role_eqb (role a) assistant && valid_reply (content a)
          && exchanges rest
      end
  end.

Definition conversations_ok (st : server) : Prop :=
  Forall (fun kh => exchanges (snd kh) = true) (sessions_of st)
  /\ Forall (fun p => exchanges (trimmedHistory p) = true
                      /\ valid_text (text p) = true) (in_flight st).

Definition system_message : turn :=
  {| role := system; content := systemPrompt |}.

Definition array_key_request : request :=
  {| ip := js "203.0.113.7"; arrival := 0;
     origin_header := Some (js "https://automatizacionesbilbao.es");
     widget_token := Some (js "widget-secret");
     body := Some (JObj [(js "message", JStr (js "Hola"));
                         (js "sessionId", JArr [JStr (js "s-1")])]) |}.

Definition array_key_pending : pending :=
  {| sid := JArr [JStr (js "s-1")];
     trimmedHistory := [];
     text := js "Hola";
     messages := [system_message; user_turn (js "Hola")] |}.

Definition other_key : json := JStr (js "s-2").

Definition one_stored : session_map :=
  [(demo_key, [user_turn (js "Hola"); assistant_turn (js "Buenas")])].

Definition object_text : jsstring := js "[object Object]".

(** ** The two earlier revisions of the file

    [Permissive] is the revision that lets requests without an Origin
    through (CORS on every route, no origin check in the handler);
    [Mvp] is the first one (open CORS, no limiter, no token, no
    validation of the message).  Both keep [requireWidgetToken], the
    limiter settings and the second half of the handler, where they have
    them, word for word as in server.js, so those are shared. *)

(** [s.includes(needle)] *)
Fixpoint includes (needle s : jsstring) : bool :=
  match s with
  | [] => startsWith needle []
  | _ :: rest => startsWith needle s || includes needle rest
  end.

Module Permissive.

Definition defaultAllowed : list jsstring :=
  [ js "https://automatizacionesbilbao.es";
    js "https://www.automatizacionesbilbao.es" ].

Definition allowedOrigins (E : env) : list jsstring :=
  filter nonempty
    (map trim
       (split comma
          (match ALLOWED_ORIGINS E with
           | Some s => if nonempty s then s else []
           | None => []
           end))).

Definition finalAllowed (E : env) : list jsstring :=
  match allowedOrigins E with
  | [] => defaultAllowed
  | _ :: _ => allowedOrigins E
  end.

(** The [origin] callback of this revision: a request without Origin
    goes on. *)
Definition cors_origin (E : env) (origin : option jsstring)
  : option jsstring :=
  match origin with
  | Some o =>
      if negb (nonempty o) then None
      else if has (finalAllowed E) o then None
      else Some (js "CORS: origen no permitido")
  | None => None
  end.

Definition error_handler (msg : jsstring) : response :=
  if includes (js "CORS") msg
  then json_reply 403 (js "Origen no permitido.")
  else express_default_error.

Definition systemPrompt : jsstring := js "
Eres el asistente de la web de Clickmesh (automatización y soluciones digitales).
Objetivo: resolver dudas y, cuando haya intención comercial, convertirla en lead cualificado.

Estilo:
- Profesional, claro, sin exageraciones.
- Respuestas directas, con pasos accionables.
- Si falta información, pregunta solo lo mínimo.

Reglas:
- No inventes precios, plazos, resultados garantizados ni tecnologías no confirmadas.
- Si el usuario pide presupuesto o muestra intención de contratar, debes pedir:
  (1) Nombre, (2) Empresa, (3) Email, (4) Teléfono, (5) Qué proceso quiere automatizar, (6) Herramientas que usa (si lo sabe).
- Si el usuario quiere hablar con una persona, ofrece contacto y sugiere agendar.
- Si la consulta es poco concreta, guía con 2-3 preguntas cerradas.
- Si hay dudas sobre datos, LOPDGDD o RGPD, responde de forma general y sugiere consulta profesional.

Importante:
- Si el usuario aporta datos personales, trátalos con discreción y no los repitas innecesariamente.
".

Definition chat_handler_before_await
    (E : env) (sessions : session_map) (req : request) (uuid : jsstring)
  : progress :=
  let message := body_field (js "message") req in
  let sessionId := body_field (js "sessionId") req in
  if negb (truthy_str (OPENAI_API_KEY E))
  then Done (json_reply 500 (js "Falta configurar OPENAI_API_KEY en el servidor."))
  else
    match ToString (js_or message (JStr [])) with
    | None => Done generic_error
    | Some coerced =>
        let text := trim coerced in
        if negb (nonempty text)
        then Done (json_reply 400 (js "Escribe un mensaje para poder ayudarte."))
        else if 2000 <? length text
        then Done (json_reply 400
               (js "El mensaje es demasiado largo. Resúmelo un poco, por favor."))
        else
          let sid := js_or sessionId (JStr uuid) in
          let history :=
            match Map_get sid sessions with Some h => h | None => [] end in
          let trimmedHistory := slice_last 12 history in
          let messages :=
            {| role := system; content := systemPrompt |}
              :: trimmedHistory
              ++ [{| role := user; content := text |}] in
          Await {| sid := sid; trimmedHistory := trimmedHistory;
                   text := text; messages := messages |}
    end.

Definition post_api_chat
    (E : env) (sessions : session_map) (req : request) (uuid : jsstring)
  : progress :=
  match requireWidgetToken E req with
  | Some r => Done r
  | None => chat_handler_before_await E sessions req uuid
  end.

(** CORS on every route, the limiter on [/api/chat], then the route. *)
Definition app
    (E : env) (L : limiter) (sessions : session_map)
    (req : request) (uuid : jsstring)
  : limiter * progress :=
  match cors_origin E (origin_header req) with
  | Some err => (L, Done (error_handler err))
  | None =>
      let (L', admitted) := chatLimiter L (ip req) (arrival req) in
      if admitted then (L', post_api_chat E sessions req uuid)
      else (L', Done too_many_requests)
  end.

End Permissive.

Module Mvp.

Definition systemPrompt : jsstring := js "
Eres el asistente de la web de Clickmesh (automatización y soluciones digitales).
Objetivo: resolver dudas y, cuando haya intención comercial, convertirla en lead cualificado.

Estilo:
- Profesional, claro, sin exageraciones.
- Respuestas directas, con pasos accionables.
- Si falta información, pregunta solo lo mínimo.

Reglas:
- No inventes precios, plazos, resultados garantizados ni tecnologías no confirmadas.
- Si el usuario pide presupuesto o muestra intención de contratar, debes pedir:
  (1) Nombre, (2) Empresa, (3) Email, (4) Teléfono, (5) Qué proceso quiere automatizar, (6) Herramientas que usa (si lo sabe).
- Si el usuario quiere hablar con una persona, ofrece contacto y sugiere agendar.
- Si la consulta es poco concreta, guía con 2-3 preguntas cerradas.
- Si hay dudas sobre datosC, LOPDGDD o RGPD, responde de forma general y sugiere consulta profesional.

Importante:
- Si el usuario aporta datos personales, trátalos con discreción y no los repitas innecesariamente.
".

(** [const { message, sessionId } = req.body] throws on a value that is
    [undefined] or [null], and the [catch] answers the generic 500;
    what the body parser hands on is an object or an array, and the
    properties below are about those.  The user turn is
    [String(message || "")], not trimmed and not checked. *)
Definition chat_handler_before_await
    (E : env) (sessions : session_map) (req : request) (uuid : jsstring)
  : progress :=
  match body req with
  | None | Some JNull => Done generic_error
  | Some b =>
      let message := get_member (js "message") b in
      let sessionId := get_member (js "sessionId") b in
      if negb (truthy_str (OPENAI_API_KEY E))
      then Done (json_reply 500
             (js "Falta configurar OPENAI_API_KEY en el servidor."))
      else
        let sid := js_or sessionId (JStr uuid) in
        let history :=
          match Map_get sid sessions with Some h => h | None => [] end in
        let trimmedHistory := slice_last 12 history in
        match ToString (js_or message (JStr [])) with
        | None => Done generic_error
        | Some coerced =>
            let messages :=
              {| role := system; content := systemPrompt |}
                :: trimmedHistory
                ++ [{| role := user; content := coerced |}] in
            Await {| sid := sid; trimmedHistory := trimmedHistory;
                     text := coerced; messages := messages |}
        end
  end.

End Mvp.

Arguments Permissive.systemPrompt : simpl never.
Arguments Mvp.systemPrompt : simpl never.

(** Two outcomes that differ at most in the text of the system
    message. *)
Definition same_but_prompt (a b : progress) : Prop :=
  match a, b with
  | Done r, Done r' => r = r'
  | Await p, Await q =>
      sid p = sid q /\ trimmedHistory p = trimmedHistory q
      /\ text p = text q /\ tl (messages p) = tl (messages q)
  | _, _ => False
  end.

Definition blank_request : request :=
  {| ip := js "203.0.113.7"; arrival := 0;
     origin_header := None; widget_token := Some (js "widget-secret");
     body := Some (JObj [(js "message", JStr (js "   "))]) |}.

(** ** A session that is full, and a request without a session *)

Definition hola_exchange : list turn :=
  [user_turn (js "Hola"); assistant_turn (js "Buenas")].

(** The map after [seven_exchanges]: 14 turns under [demo_key]. *)
Definition fourteen_stored : session_map :=
  [(demo_key, concat (repeat hola_exchange 7))].

Definition eighth : request := demo_request 7000 (Some (JStr (js "Hola"))).

Definition eighth_pending : pending :=
  {| sid := demo_key;
     trimmedHistory := concat (repeat hola_exchange 6);
     text := js "Hola";
     messages := system_message
                   :: concat (repeat hola_exchange 6)
                   ++ [user_turn (js "Hola")] |}.

Definition anonymous : request :=
  {| ip := js "203.0.113.7"; arrival := 7000;
     origin_header := Some (js "https://automatizacionesbilbao.es");
     widget_token := Some (js "widget-secret");
     body := Some (JObj [(js "message", JStr (js "Hola"))]) |}.

Definition anonymous_pending : pending :=
  {| sid := JStr (js "fresh-uuid");
     trimmedHistory := [];
     text := js "Hola";
     messages := [system_message; user_turn (js "Hola")] |}.

(** * Properties *)

(** ** Strings, keys and the allow-list *)

Lemma jsstring_eqb_eq (a b : jsstring) : jsstring_eqb a b = true <-> a = b.
Proof.
  revert b; induction a as [|x a IH]; intros [|y b]; simpl;
    try (split; [discriminate | discriminate]); try tauto.
  rewrite andb_true_iff, N.eqb_eq, IH.
  split; [intros [-> ->]; reflexivity | intros H; injection H; auto].
Qed.

Lemma jsstring_eqb_refl (a : jsstring) : jsstring_eqb a a = true.
Proof. apply jsstring_eqb_eq; reflexivity. Qed.

Lemma jsstring_eqb_neq (a b : jsstring) : a <> b -> jsstring_eqb a b = false.
Proof.
  intros H; destruct (jsstring_eqb a b) eqn:Eab; [|reflexivity].
  apply jsstring_eqb_eq in Eab; contradiction.
Qed.

Lemma has_In (set : list jsstring) (x : jsstring) :
  has set x = true <-> In x set.
Proof.
  unfold has; rewrite existsb_exists; split.
  - intros (y & Hy & Heq); apply jsstring_eqb_eq in Heq; subst; assumption.
  - intros Hx; exists x; split; [assumption | apply jsstring_eqb_refl].
Qed.

Lemma isAllowedOrigin_member (E : env) (o : jsstring) :
  isAllowedOrigin E (Some o) = true -> In o (allowedOrigins E).
Proof.
  simpl; rewrite andb_true_iff; intros [_ H]; apply has_In; exact H.
Qed.

Lemma same_key_eq (a b : json) : same_key a b = true -> a = b.
Proof.
  destruct a, b; simpl; try discriminate; intros H.
  - reflexivity.
  - apply Bool.eqb_prop in H; subst; reflexivity.
  - apply jsstring_eqb_eq in H; subst; reflexivity.
  - apply jsstring_eqb_eq in H; subst; reflexivity.
Qed.

(** ** The history window *)

Section Window.
Variable A : Type.
Implicit Types (a : list A) (n : nat).

Lemma slice_last_length n a : length (slice_last n a) = Nat.min (length a) n.
Proof. unfold slice_last; rewrite length_skipn; lia. Qed.

Lemma slice_last_bound n a : length (slice_last n a) <= n.
Proof. rewrite slice_last_length; lia. Qed.

Lemma slice_last_suffix n a : exists older, a = older ++ slice_last n a.
Proof.
  exists (firstn (length a - n) a); unfold slice_last.
  symmetry; apply firstn_skipn.
Qed.

Lemma slice_last_short n a : length a <= n -> slice_last n a = a.
Proof.
  intros H; unfold slice_last.
  replace (length a - n) with 0 by lia; reflexivity.
Qed.
End Window.

Lemma even_min (m n : nat) :
  Nat.Even m -> Nat.Even n -> Nat.Even (Nat.min m n).
Proof. intros Hm Hn; destruct (Nat.min_spec m n) as [[_ ->]|[_ ->]]; assumption. Qed.

(** ** The session map *)

Section SessionMap.
Variable P : list turn -> Prop.

Lemma Map_get_Forall (k : json) (m : session_map) (h : list turn) :
  Forall (fun kh => P (snd kh)) m -> Map_get k m = Some h -> P h.
Proof.
  induction m as [|[k' h'] m IH]; simpl; [discriminate|].
  intros Hall; inversion Hall as [|? ? Hhd Htl]; subst.
  destruct (same_key k' k); [intros [= <-]; exact Hhd | apply IH; exact Htl].
Qed.

Lemma Map_set_Forall (k : json) (h : list turn) (m : session_map) :
  Forall (fun kh => P (snd kh)) m -> P h ->
  Forall (fun kh => P (snd kh)) (Map_set k h m).
Proof.
  intros Hall Hh; induction m as [|[k' h'] m IH]; simpl.
  - constructor; [exact Hh | constructor].
  - inversion Hall as [|? ? Hhd Htl]; subst.
    destruct (same_key k' k); constructor; auto.
Qed.
End SessionMap.

Lemma Map_set_In (k : json) (h : list turn) (m : session_map) :
  In (k, h) (Map_set k h m).
Proof.
  induction m as [|[k' h'] m IH]; simpl; [left; reflexivity|].
  destruct (same_key k' k) eqn:Ek.
  - apply same_key_eq in Ek; subst; left; reflexivity.
  - right; exact IH.
Qed.

Lemma Map_get_set (k : json) (h : list turn) (m : session_map) :
  same_key k k = true -> Map_get k (Map_set k h m) = Some h.
Proof.
  intros Hk; induction m as [|[k' h'] m IH]; simpl.
  - rewrite Hk; reflexivity.
  - destruct (same_key k' k) eqn:Ek; simpl; rewrite Ek; [reflexivity | exact IH].
Qed.

(** ** The two halves of the handler *)

Lemma before_await_inv E sessions req uuid p :
  chat_handler_before_await E sessions req uuid = Await p ->
  isAllowedOrigin E (origin_header req) = true
  /\ truthy_str (OPENAI_API_KEY E) = true
  /\ message_text req = Some (text p)
  /\ nonempty (text p) = true
  /\ length (text p) <= 2000
  /\ sid p = js_or (body_field (js "sessionId") req) (JStr uuid)
  /\ trimmedHistory p = slice_last 12 (history_of (sid p) sessions)
  /\ messages p =
       {| role := system; content := systemPrompt |}
         :: trimmedHistory p ++ [user_turn (text p)].
Proof.
  unfold chat_handler_before_await, message_text.
  destruct (isAllowedOrigin E (origin_header req)); simpl; [|discriminate].
  destruct (truthy_str (OPENAI_API_KEY E)); simpl; [|discriminate].
  destruct (ToString _) as [coerced|]; simpl; [|discriminate].
  destruct (nonempty (trim coerced)) eqn:Hne; simpl; [|discriminate].
  destruct (2000 <? length (trim coerced)) eqn:Hlen; [discriminate|].
  apply Nat.ltb_ge in Hlen.
  intros [= <-]; simpl; repeat split; auto.
Qed.

Lemma route_inv E sessions req uuid p :
  post_api_chat E sessions req uuid = Await p ->
  requireWidgetToken E req = None
  /\ chat_handler_before_await E sessions req uuid = Await p.
Proof.
  unfold post_api_chat; destruct (requireWidgetToken E req);
    [discriminate | auto].
Qed.

Lemma app_inv E L sessions req uuid L' p :
  app E L sessions req uuid = (L', Await p) ->
  cors_origin E (origin_header req) = None
  /\ chatLimiter L (ip req) (arrival req) = (L', true)
  /\ post_api_chat E sessions req uuid = Await p.
Proof.
  unfold app; destruct (cors_origin E (origin_header req)); [discriminate|].
  destruct (chatLimiter L (ip req) (arrival req)) as [L1 [|]];
    intros [= <- H]; auto.
Qed.

Lemma app_sends E L sessions req uuid L' p :
  app E L sessions req uuid = (L', Await p) ->
  chat_handler_before_await E sessions req uuid = Await p.
Proof. intros H; apply app_inv in H; apply route_inv; tauto. Qed.

Lemma after_await_rejected sessions p :
  chat_handler_after_await sessions p Rejected = (sessions, generic_error).
Proof. reflexivity. Qed.

Lemma after_await_replied sessions p completion answer :
  completion_reply completion = Some answer ->
  chat_handler_after_await sessions p (Resolved completion)
  = (Map_set (sid p)
       (trimmedHistory p ++ [user_turn (text p); assistant_turn answer])
       sessions,
     {| status := 200; reply := Some answer; sessionId := Some (sid p) |}).
Proof. intros H; simpl; rewrite H; reflexivity. Qed.

Lemma after_await_status_200 sessions p outcome sessions' r :
  chat_handler_after_await sessions p outcome = (sessions', r) ->
  status r = 200 ->
  exists completion answer,
    outcome = Resolved completion
    /\ completion_reply completion = Some answer
    /\ reply r = Some answer.
Proof.
  destruct outcome as [|completion]; simpl.
  - intros [= _ <-]; discriminate.
  - destruct (completion_reply completion) as [answer|] eqn:Hc.
    + intros [= _ <-] _; exists completion, answer; auto.
    + intros [= _ <-]; discriminate.
Qed.

(** ** Invariant of the running server *)

Lemma pending_ok_from_store E sessions req uuid p :
  Forall (fun kh => history_ok (snd kh)) sessions ->
  chat_handler_before_await E sessions req uuid = Await p ->
  pending_ok p.
Proof.
  intros Hall H; apply before_await_inv in H.
  destruct H as (_ & _ & _ & _ & _ & _ & Htrim & _).
  unfold pending_ok; rewrite Htrim, slice_last_length; split; [lia|].
  apply even_min; [|exists 6; reflexivity].
  unfold history_of; destruct (Map_get (sid p) sessions) as [h|] eqn:Hget.
  - apply (@Map_get_Forall history_ok _ _ _ Hall) in Hget.
    destruct Hget as (_ & Heven & _); exact Heven.
  - exists 0; reflexivity.
Qed.

Lemma history_ok_extend (h : list turn) (t r : jsstring) :
  length h <= 12 -> Nat.Even (length h) ->
  history_ok (h ++ [user_turn t; assistant_turn r]).
Proof.
  intros Hlen [k Hk]; unfold history_ok; rewrite length_app; simpl.
  split; [lia|]; split.
  - exists (S k); lia.
  - exists h, t, r; reflexivity.
Qed.

Lemma Forall_remove_nth {A : Type} (Q : A -> Prop) (i : nat) (l : list A) :
  Forall Q l -> Forall Q (remove_nth i l).
Proof.
  intros H; revert i; induction H as [|x l Hx Hl IH]; intros [|i]; simpl;
    auto.
Qed.

Lemma step_preserves E st ev : server_ok st -> server_ok (fst (step E st ev)).
Proof.
  intros [Hs Hp]; destruct ev as [req uuid | i outcome]; simpl.
  - destruct (app E (limiter_of st) (sessions_of st) req uuid)
      as [L' [r|p]] eqn:Happ; simpl; split; auto.
    apply Forall_app; split; [exact Hp|].
    constructor; [|constructor].
    apply app_sends in Happ.
    eapply pending_ok_from_store; eauto.
  - destruct (nth_error (in_flight st) i) as [p|] eqn:Hnth; simpl;
      [|split; assumption].
    assert (Hpok : pending_ok p).
    { apply nth_error_In in Hnth.
      rewrite Forall_forall in Hp; apply Hp; exact Hnth. }
    destruct (chat_handler_after_await (sessions_of st) p outcome)
      as [sessions' r] eqn:Hafter; simpl.
    split; [|apply Forall_remove_nth; exact Hp].
    destruct outcome as [|completion]; simpl in Hafter.
    + injection Hafter as <- _; exact Hs.
    + destruct (completion_reply completion) as [answer|].
      * injection Hafter as <- _.
        apply Map_set_Forall; [exact Hs|].
        destruct Hpok; apply history_ok_extend; assumption.
      * injection Hafter as <- _; exact Hs.
Qed.

Lemma reachable_ok E st : reachable E st -> server_ok st.
Proof.
  induction 1 as [|st ev _ IH].
  - split; constructor.
  - apply step_preserves; exact IH.
Qed.

Lemma reachable_run E st evs : reachable E st -> reachable E (run E st evs).
Proof.
  revert st; induction evs as [|ev evs IH]; intros st H; simpl;
    [exact H | apply IH, reachable_step, H].
Qed.

Lemma run_ok E evs : server_ok (run E boot evs).
Proof. apply (reachable_ok (E := E)), reachable_run, reachable_boot. Qed.

(** ** Bound and shape of the stored histories *)

(** C1, as stated, fails: after seven answered requests on one session
    the map holds 14 turns for it, so it is not true that every stored
    history has at most 12 turns. *)
Lemma C1_counterexample_seventh_exchange :
  ~ (forall evs : list event,
        Forall (fun kh => length (snd kh) <= 12)
          (sessions_of (run demo_env boot evs))).
Proof.
  intros H; specialize (H seven_exchanges).
  assert (Hget : Map_get demo_key (sessions_of (run demo_env boot seven_exchanges))
                 = Some (history_of demo_key
                           (sessions_of (run demo_env boot seven_exchanges))))
    by (vm_compute; reflexivity).
  apply (@Map_get_Forall (fun h => length h <= 12) _ _ _ H) in Hget.
  vm_compute in Hget; lia.
Qed.

(** C1, amended: whatever requests arrive and however their completion
    calls settle, every stored history has at most 14 turns; and the
    write of an answered request stores, under its session key, the 12
    most recent turns of the history it read on arrival followed by the
    new user turn and the new assistant turn (trim first, then append). *)
Theorem C1_stored_history_at_most_14 (E : env) :
  (forall evs : list event,
      Forall (fun kh => length (snd kh) <= 14)
        (sessions_of (run E boot evs)))
  /\ (forall sessions req uuid p later completion answer,
         post_api_chat E sessions req uuid = Await p ->
         completion_reply completion = Some answer ->
         fst (chat_handler_after_await later p (Resolved completion))
         = Map_set (sid p)
             (slice_last 12 (history_of (sid p) sessions)
                ++ [user_turn (text p); assistant_turn answer])
             later).
Proof.
  split.
  - intros evs; destruct (run_ok E evs) as [Hs _].
    eapply Forall_impl; [|exact Hs].
    intros kh (Hlen & _); exact Hlen.
  - intros sessions req uuid p later completion answer Hsent Hans.
    apply route_inv in Hsent; destruct Hsent as [_ Hsent].
    apply before_await_inv in Hsent.
    destruct Hsent as (_ & _ & _ & _ & _ & _ & Htrim & _).
    rewrite (after_await_replied later p completion Hans), <- Htrim.
    reflexivity.
Qed.

Lemma C1_witness_first_exchange :
  post_api_chat demo_env [] hola (js "fresh-uuid") = Await hola_pending
  /\ completion_reply (demo_completion (js "Buenas")) = Some (js "Buenas")
  /\ fst (chat_handler_after_await [] hola_pending
            (Resolved (demo_completion (js "Buenas"))))
     = Map_set demo_key
         (slice_last 12 (history_of demo_key [])
            ++ [user_turn (js "Hola"); assistant_turn (js "Buenas")])
         [].
Proof.
  assert (Hsent : post_api_chat demo_env [] hola (js "fresh-uuid")
                  = Await hola_pending) by (vm_compute; reflexivity).
  assert (Hans : completion_reply (demo_completion (js "Buenas"))
                 = Some (js "Buenas")) by (vm_compute; reflexivity).
  split; [exact Hsent | split; [exact Hans|]].
  exact (proj2 (C1_stored_history_at_most_14 demo_env)
           [] hola (js "fresh-uuid") hola_pending []
           (demo_completion (js "Buenas")) (js "Buenas") Hsent Hans).
Defined.

(** C9: in every reachable state each stored history has even length,
    at most 14, and ends with a user turn followed by an assistant turn;
    and when a completion call settles with status 200, the history then
    stored under the request's session key is the trimmed history the
    request carried followed by its user turn and the assistant turn of
    the reply just sent, and has even length at most 14. *)
Theorem C9_stored_history_even_and_closed (E : env) (evs : list event) :
  Forall (fun kh => history_ok (snd kh)) (sessions_of (run E boot evs))
  /\ (forall i outcome st' r,
         step E (run E boot evs) (Settles i outcome) = (st', Some r) ->
         status r = 200 ->
         exists p answer h,
           nth_error (in_flight (run E boot evs)) i = Some p
           /\ reply r = Some answer
           /\ h = trimmedHistory p
                  ++ [user_turn (text p); assistant_turn answer]
           /\ stored_as (sid p) h (sessions_of st')
           /\ Nat.Even (length h)
           /\ length h <= 14).
Proof.
  destruct (run_ok E evs) as [Hs Hp]; split; [exact Hs|].
  intros i outcome st' r; simpl.
  destruct (nth_error (in_flight (run E boot evs)) i) as [p|] eqn:Hnth;
    [|discriminate].
  destruct (chat_handler_after_await _ p outcome) as [sessions' r'] eqn:Hafter.
  intros [= <- <-] H200.
  destruct (after_await_status_200 _ _ _ Hafter H200)
    as (completion & answer & -> & Hans & Hreply).
  rewrite (after_await_replied _ p completion Hans) in Hafter.
  injection Hafter as <- _.
  assert (Hpok : pending_ok p).
  { apply nth_error_In in Hnth; rewrite Forall_forall in Hp; auto. }
  destruct Hpok as [Hlen [k Hk]].
  exists p, answer, (trimmedHistory p
                       ++ [user_turn (text p); assistant_turn answer]).
  rewrite length_app; simpl; repeat split; auto.
  - apply Map_set_In.
  - apply Map_get_set.
  - exists (S k); lia.
  - lia.
Qed.

Lemma C9_witness_first_exchange :
  step demo_env (run demo_env boot [Arrives hola (js "fresh-uuid")])
    (Settles 0 (Resolved (demo_completion (js "Buenas"))))
  = ({| sessions_of :=
          [(demo_key, [user_turn (js "Hola"); assistant_turn (js "Buenas")])];
        limiter_of :=
          [(js "203.0.113.7", {| hits := 1; resetTime := 60000 |})];
        in_flight := [] |},
     Some {| status := 200; reply := Some (js "Buenas");
             sessionId := Some demo_key |})
  /\ exists p answer h,
       nth_error (in_flight (run demo_env boot [Arrives hola (js "fresh-uuid")])) 0
       = Some p
       /\ Some (js "Buenas") = Some answer
       /\ h = trimmedHistory p ++ [user_turn (text p); assistant_turn answer]
       /\ stored_as (sid p) h
            [(demo_key, [user_turn (js "Hola"); assistant_turn (js "Buenas")])]
       /\ Nat.Even (length h)
       /\ length h <= 14.
Proof.
  assert (Hstep :
    step demo_env (run demo_env boot [Arrives hola (js "fresh-uuid")])
      (Settles 0 (Resolved (demo_completion (js "Buenas"))))
    = ({| sessions_of :=
            [(demo_key, [user_turn (js "Hola"); assistant_turn (js "Buenas")])];
          limiter_of :=
            [(js "203.0.113.7", {| hits := 1; resetTime := 60000 |})];
          in_flight := [] |},
       Some {| status := 200; reply := Some (js "Buenas");
               sessionId := Some demo_key |}))
    by (vm_compute; reflexivity).
  split; [exact Hstep|].
  exact (proj2 (C9_stored_history_even_and_closed demo_env
                  [Arrives hola (js "fresh-uuid")])
           0 (Resolved (demo_completion (js "Buenas"))) _ _ Hstep eq_refl).
Defined.

(** ** Guards in front of the provider *)

Lemma error_handler_missing_origin :
  error_handler (js "CORS: missing origin") = forbidden_origin.
Proof. reflexivity. Qed.

Lemma error_handler_origin_not_allowed :
  error_handler (js "CORS: origin not allowed") = forbidden_origin.
Proof. reflexivity. Qed.

Lemma cors_error_is_403 E origin err :
  cors_origin E origin = Some err -> error_handler err = forbidden_origin.
Proof.
  unfold cors_origin.
  destruct (negb (truthy_str origin));
    [intros [= <-]; apply error_handler_missing_origin|].
  destruct (isAllowedOrigin E origin);
    [discriminate | intros [= <-]; apply error_handler_origin_not_allowed].
Qed.

Lemma app_of_route_done E L sessions req uuid r :
  post_api_chat E sessions req uuid = Done r ->
  exists r', snd (app E L sessions req uuid) = Done r'
    /\ (cors_origin E (origin_header req) = None ->
        snd (chatLimiter L (ip req) (arrival req)) = true -> r' = r)
    /\ (cors_origin E (origin_header req) = None ->
        snd (chatLimiter L (ip req) (arrival req)) = false ->
        r' = too_many_requests)
    /\ (cors_origin E (origin_header req) <> None -> r' = forbidden_origin).
Proof.
  intros Hroute; unfold app.
  destruct (cors_origin E (origin_header req)) as [err|] eqn:Hcors.
  - exists (error_handler err); split; [reflexivity|].
    split; [discriminate|]; split; [discriminate|].
    intros _; exact (cors_error_is_403 _ _ Hcors).
  - destruct (chatLimiter L (ip req) (arrival req)) as [L' [|]];
      cbn [snd].
    + exists r; split; [exact Hroute|].
      split; [reflexivity|]; split; [discriminate | congruence].
    + exists too_many_requests; split; [reflexivity|].
      split; [discriminate|]; split; [reflexivity | congruence].
Qed.

(** C2, as stated, fails: with a secret configured, a request that
    carries neither a token nor an Origin header is answered 403 by the
    CORS layer, not 401. *)
Lemma C2_counterexample_no_origin :
  ~ (forall E L sessions req uuid expected,
        WIDGET_TOKEN E = Some expected -> expected <> [] ->
        widget_token req <> Some expected ->
        exists r, snd (app E L sessions req uuid) = Done r /\ status r = 401).
Proof.
  intros H.
  destruct (H demo_env [] [] (no_header 0) (js "fresh-uuid")
              (js "widget-secret")) as (r & Hr & Hs).
  - reflexivity.
  - vm_compute; discriminate.
  - cbn [no_header widget_token]; discriminate.
  - assert (Happ : snd (app demo_env [] [] (no_header 0) (js "fresh-uuid"))
                   = Done forbidden_origin) by (vm_compute; reflexivity).
    rewrite Happ in Hr; injection Hr as <-.
    vm_compute in Hs; discriminate Hs.
Qed.

(** C2, amended: with a secret configured, a request whose
    X-Widget-Token header is absent or differs from the secret never
    reaches the provider.  The route registered for POST /api/chat
    answers it 401 [No autorizado.], and so does the stack whenever the
    CORS layer and the limiter, which are registered before the route,
    have let the request through; otherwise the answer is theirs: 403
    when the CORS layer refuses the origin, 429 when the limiter stops
    the request. *)
Theorem C2_wrong_token_is_401 E sessions req uuid expected :
  WIDGET_TOKEN E = Some expected -> expected <> [] ->
  widget_token req <> Some expected ->
  post_api_chat E sessions req uuid = Done unauthorized
  /\ forall L, exists r,
       snd (app E L sessions req uuid) = Done r
       /\ (cors_origin E (origin_header req) = None ->
           snd (chatLimiter L (ip req) (arrival req)) = true ->
           r = unauthorized)
       /\ (cors_origin E (origin_header req) = None ->
           snd (chatLimiter L (ip req) (arrival req)) = false ->
           r = too_many_requests)
       /\ (cors_origin E (origin_header req) <> None ->
           r = forbidden_origin).
Proof.
  intros Hexp Hne Hbad.
  assert (Hroute : post_api_chat E sessions req uuid = Done unauthorized).
  { unfold post_api_chat, requireWidgetToken; rewrite Hexp.
    destruct expected as [|c expected]; [contradiction|]; simpl.
    destruct (widget_token req) as [provided|]; simpl; [|reflexivity].
    destruct (jsstring_eqb provided (c :: expected)) eqn:Heq.
    - apply jsstring_eqb_eq in Heq; subst; contradiction.
    - rewrite orb_true_r; reflexivity. }
  split; [exact Hroute | intros L; apply app_of_route_done; exact Hroute].
Qed.

Lemma C2_witness_no_token :
  WIDGET_TOKEN demo_env = Some (js "widget-secret")
  /\ widget_token no_token = None
  /\ post_api_chat demo_env [] no_token (js "fresh-uuid") = Done unauthorized
  /\ exists r,
       snd (app demo_env [] [] no_token (js "fresh-uuid")) = Done r
       /\ r = unauthorized.
Proof.
  assert (Hne : js "widget-secret" <> []) by (vm_compute; discriminate).
  assert (Hbad : widget_token no_token <> Some (js "widget-secret"))
    by (cbn [no_token widget_token]; discriminate).
  destruct (@C2_wrong_token_is_401 demo_env [] no_token (js "fresh-uuid")
              (js "widget-secret") eq_refl Hne Hbad) as [Hroute Hstack].
  destruct (Hstack []) as (r & Hr & Hpass & _).
  split; [reflexivity|]; split; [reflexivity|]; split; [exact Hroute|].
  exists r; split; [exact Hr|].
  apply Hpass; vm_compute; reflexivity.
Defined.

(** C6, as stated, fails: with WIDGET_TOKEN unset, a request without
    an Origin header is answered 403 by the CORS layer, not 500. *)
Lemma C6_counterexample_no_origin :
  ~ (forall E L sessions req uuid,
        WIDGET_TOKEN E = None \/ WIDGET_TOKEN E = Some [] ->
        exists r, snd (app E L sessions req uuid) = Done r /\ status r = 500).
Proof.
  intros H.
  destruct (H no_secret_env [] [] (no_header 0) (js "fresh-uuid")
              (or_introl eq_refl)) as (r & Hr & Hs).
  assert (Happ : snd (app no_secret_env [] [] (no_header 0) (js "fresh-uuid"))
                 = Done forbidden_origin) by (vm_compute; reflexivity).
  rewrite Happ in Hr; injection Hr as <-.
  vm_compute in Hs; discriminate Hs.
Qed.

(** C6, amended: when WIDGET_TOKEN is unset or empty, no request reaches
    the provider, whatever token it carries: the absence of a secret is
    never read as no secret being required.  The route answers every
    request 500 [Falta configurar WIDGET_TOKEN en el servidor.], and so
    does the stack whenever the CORS layer and the limiter, which are
    registered before the route, have let the request through; otherwise
    the answer is theirs: 403 when the CORS layer refuses the origin,
    429 when the limiter stops the request. *)
Theorem C6_unset_secret_is_500 E sessions req uuid :
  WIDGET_TOKEN E = None \/ WIDGET_TOKEN E = Some [] ->
  post_api_chat E sessions req uuid = Done missing_widget_token
  /\ forall L, exists r,
       snd (app E L sessions req uuid) = Done r
       /\ (cors_origin E (origin_header req) = None ->
           snd (chatLimiter L (ip req) (arrival req)) = true ->
           r = missing_widget_token)
       /\ (cors_origin E (origin_header req) = None ->
           snd (chatLimiter L (ip req) (arrival req)) = false ->
           r = too_many_requests)
       /\ (cors_origin E (origin_header req) <> None ->
           r = forbidden_origin).
Proof.
  intros Hunset.
  assert (Hroute : post_api_chat E sessions req uuid
                   = Done missing_widget_token).
  { unfold post_api_chat, requireWidgetToken.
    destruct Hunset as [-> | ->]; reflexivity. }
  split; [exact Hroute | intros L; apply app_of_route_done; exact Hroute].
Qed.

Lemma C6_witness_right_token_still_500 :
  widget_token hola = Some (js "widget-secret")
  /\ post_api_chat no_secret_env [] hola (js "fresh-uuid")
     = Done missing_widget_token
  /\ exists r,
       snd (app no_secret_env [] [] hola (js "fresh-uuid")) = Done r
       /\ r = missing_widget_token.
Proof.
  destruct (@C6_unset_secret_is_500 no_secret_env [] hola
              (js "fresh-uuid") (or_introl eq_refl)) as [Hroute Hstack].
  destruct (Hstack []) as (r & Hr & Hpass & _).
  split; [reflexivity|]; split; [exact Hroute|].
  exists r; split; [exact Hr|].
  apply Hpass; vm_compute; reflexivity.
Defined.

(** C7: a request whose Origin header is absent, or is not in the set
    of allowed origins, is answered 403 [Origen no permitido.] by the
    first layer of the stack: the limiter is not consulted and the
    provider is not called.  The check inside the handler gives the same
    answer, so both layers reject a missing Origin. *)
Theorem C7_foreign_origin_is_403 E L sessions req uuid :
  (origin_header req = None
   \/ exists o, origin_header req = Some o /\ ~ In o (allowedOrigins E)) ->
  app E L sessions req uuid = (L, Done forbidden_origin)
  /\ chat_handler_before_await E sessions req uuid = Done forbidden_origin.
Proof.
  intros Horigin.
  assert (Hnot : isAllowedOrigin E (origin_header req) = false).
  { destruct Horigin as [-> | (o & -> & Hout)]; [reflexivity|].
    destruct (isAllowedOrigin E (Some o)) eqn:Hin; [|reflexivity].
    apply isAllowedOrigin_member in Hin; contradiction. }
  split.
  - unfold app, cors_origin; rewrite Hnot.
    destruct (truthy_str (origin_header req)); simpl;
      [rewrite error_handler_origin_not_allowed
      |rewrite error_handler_missing_origin]; reflexivity.
  - unfold chat_handler_before_await; rewrite Hnot; reflexivity.
Qed.

Lemma C7_witness_no_origin :
  origin_header (no_header 0) = None
  /\ app demo_env [] [] (no_header 0) (js "fresh-uuid")
     = ([], Done forbidden_origin).
Proof.
  split; [reflexivity|].
  exact (proj1 (@C7_foreign_origin_is_403 demo_env [] [] (no_header 0)
                  (js "fresh-uuid") (or_introl eq_refl))).
Defined.

(** ** Failure of the provider call *)

Lemma after_await_failure sessions p outcome :
  upstream_failure outcome ->
  chat_handler_after_await sessions p outcome = (sessions, generic_error).
Proof.
  destruct outcome as [|completion]; simpl; [reflexivity|].
  intros ->; reflexivity.
Qed.

Lemma nth_error_last {A : Type} (l : list A) (x : A) :
  nth_error (l ++ [x]) (length l) = Some x.
Proof. induction l; simpl; auto. Qed.

Lemma remove_nth_last {A : Type} (l : list A) (x : A) :
  remove_nth (length l) (l ++ [x]) = l.
Proof. induction l as [|y l IH]; simpl; [|rewrite IH]; reflexivity. Qed.

Lemma arrival_keeps_sessions E st req uuid :
  sessions_of (fst (step E st (Arrives req uuid))) = sessions_of st.
Proof.
  simpl; destruct (app E (limiter_of st) (sessions_of st) req uuid)
    as [L' [r|p]]; reflexivity.
Qed.

(** C3: take a request that is admitted, that is, whose arrival ends in
    the provider being called.  Its arrival does not touch the session
    map.  If the call then fails (it throws, or what it returns cannot
    be read), the answer is 500 with [Ha ocurrido un error. Inténtalo
    de nuevo en unos segundos.] and the session map is the one before
    the request; the same holds of any call in flight that fails, in
    whatever state the server is by then. *)
Theorem C3_failed_call_leaves_sessions E st req uuid st1 outcome :
  step E st (Arrives req uuid) = (st1, None) ->
  upstream_failure outcome ->
  sessions_of st1 = sessions_of st
  /\ step E st1 (Settles (length (in_flight st)) outcome)
     = ({| sessions_of := sessions_of st;
           limiter_of := limiter_of st1;
           in_flight := in_flight st |}, Some generic_error)
  /\ forall st2 i p,
       nth_error (in_flight st2) i = Some p ->
       step E st2 (Settles i outcome)
       = ({| sessions_of := sessions_of st2;
             limiter_of := limiter_of st2;
             in_flight := remove_nth i (in_flight st2) |},
          Some generic_error).
Proof.
  intros Harr Hfail.
  assert (Hgen : forall st2 i p,
             nth_error (in_flight st2) i = Some p ->
             step E st2 (Settles i outcome)
             = ({| sessions_of := sessions_of st2;
                   limiter_of := limiter_of st2;
                   in_flight := remove_nth i (in_flight st2) |},
                Some generic_error)).
  { intros st2 i p Hnth; simpl; rewrite Hnth.
    rewrite (after_await_failure _ p outcome Hfail); reflexivity. }
  simpl in Harr.
  destruct (app E (limiter_of st) (sessions_of st) req uuid)
    as [L' [r|p]]; [discriminate|].
  injection Harr as <-.
  split; [reflexivity|]; split; [|exact Hgen].
  rewrite (Hgen _ (length (in_flight st)) p).
  - simpl; rewrite remove_nth_last; reflexivity.
  - simpl; apply nth_error_last.
Qed.

Lemma C3_witness_network_error :
  step demo_env boot (Arrives hola (js "fresh-uuid")) = (hola_arrived, None)
  /\ step demo_env hola_arrived (Settles 0 Rejected)
     = ({| sessions_of := [];
           limiter_of := limiter_of hola_arrived;
           in_flight := [] |}, Some generic_error).
Proof.
  assert (Harr : step demo_env boot (Arrives hola (js "fresh-uuid"))
                 = (hola_arrived, None)) by (vm_compute; reflexivity).
  split; [exact Harr|].
  exact (proj1 (proj2 (@C3_failed_call_leaves_sessions demo_env boot hola
                         (js "fresh-uuid") hola_arrived Rejected Harr I))).
Defined.

(** ** Assembly of the prompt *)

Lemma Map_get_first (k0 : json) (sessions : session_map) :
  forall before k h after,
    sessions = before ++ (k, h) :: after ->
    same_key k k0 = true ->
    (forall k' h', In (k', h') before -> same_key k' k0 = false) ->
    Map_get k0 sessions = Some h.
Proof.
  intros before k h after -> Hk Hbefore.
  induction before as [|[k' h'] before IH]; cbn [Datatypes.app Map_get].
  - rewrite Hk; reflexivity.
  - rewrite (Hbefore k' h' (or_introl eq_refl)).
    apply IH; intros k2 h2 H2; apply (Hbefore k2 h2); right; exact H2.
Qed.

Lemma Map_get_absent (k0 : json) (sessions : session_map) :
  (forall k h, In (k, h) sessions -> same_key k k0 = false) ->
  Map_get k0 sessions = None.
Proof.
  induction sessions as [|[k h] sessions IH]; cbn [Map_get]; intros Hall;
    [reflexivity|].
  rewrite (Hall k h (or_introl eq_refl)).
  apply IH; intros k2 h2 H2; apply (Hall k2 h2); right; exact H2.
Qed.

(** C5: for a request that is admitted, the session key is the
    [sessionId] of the body when that is present (truthy, as the source's
    [sessionId || uuidv4()] has it) and the identifier [uuidv4()] returns
    otherwise; the list sent to the provider is the system message with
    the fixed prompt, then the 12 most recent turns stored under that key
    (all of them if fewer), then the user turn with the validated text;
    and the arrival of a request leaves the session map as it was.
    The stored turns are named through the map itself: if [h] is the
    history of the entry of the map that has this key, the turns sent are
    the last [min 12 (length h)] turns of [h], and if the map has no
    entry with this key, none are sent. *)
Theorem C5_prompt_assembly E L sessions req uuid L' p :
  app E L sessions req uuid = (L', Await p) ->
  (truthy (body_field (js "sessionId") req) = true ->
   Some (sid p) = body_field (js "sessionId") req)
  /\ (truthy (body_field (js "sessionId") req) = false ->
      sid p = JStr uuid)
  /\ message_text req = Some (text p)
  /\ messages p
     = {| role := system; content := systemPrompt |}
         :: slice_last 12 (history_of (sid p) sessions)
         ++ [user_turn (text p)]
  /\ length (slice_last 12 (history_of (sid p) sessions)) <= 12
  /\ (exists older,
         history_of (sid p) sessions
         = older ++ slice_last 12 (history_of (sid p) sessions))
  /\ (forall st, sessions_of (fst (step E st (Arrives req uuid)))
                 = sessions_of st)
  /\ (forall before k h after,
         sessions = before ++ (k, h) :: after ->
         same_key k (sid p) = true ->
         (forall k' h', In (k', h') before -> same_key k' (sid p) = false) ->
         exists older recent,
           h = older ++ recent
           /\ length recent = Nat.min 12 (length h)
           /\ messages p
              = {| role := system; content := systemPrompt |}
                  :: recent ++ [user_turn (text p)])
  /\ ((forall k h, In (k, h) sessions -> same_key k (sid p) = false) ->
      messages p
      = [ {| role := system; content := systemPrompt |};
          user_turn (text p) ]).
Proof.
  intros Happ; apply app_sends, before_await_inv in Happ.
  destruct Happ as (_ & _ & Htext & _ & _ & Hsid & Htrim & Hmsgs).
  rewrite Htrim in Hmsgs.
  split; [|split; [|split; [exact Htext|split; [exact Hmsgs|]]]].
  - rewrite Hsid; unfold js_or.
    destruct (body_field (js "sessionId") req) as [v|]; [|discriminate].
    intros ->; reflexivity.
  - rewrite Hsid; unfold js_or.
    destruct (body_field (js "sessionId") req) as [v|]; [|reflexivity].
    intros ->; reflexivity.
  - split; [apply slice_last_bound|].
    split; [apply slice_last_suffix|].
    split; [intros st; apply arrival_keeps_sessions|].
    split.
    + intros before k h after Hs Hk Hbefore.
      assert (Hget : Map_get (sid p) sessions = Some h)
        by (eapply Map_get_first; eauto).
      unfold history_of in Hmsgs; rewrite Hget in Hmsgs.
      exists (firstn (length h - 12) h), (slice_last 12 h).
      split; [symmetry; apply firstn_skipn|].
      split; [rewrite slice_last_length; apply Nat.min_comm | exact Hmsgs].
    + intros Habsent.
      assert (Hget : Map_get (sid p) sessions = None)
        by (apply Map_get_absent; exact Habsent).
      unfold history_of in Hmsgs; rewrite Hget in Hmsgs.
      exact Hmsgs.
Qed.

Lemma C5_witness_eighth_and_anonymous :
  sessions_of (run demo_env boot seven_exchanges) = fourteen_stored
  /\ app demo_env [] fourteen_stored eighth (js "fresh-uuid")
     = ([(js "203.0.113.7", {| hits := 1; resetTime := 67000 |})],
        Await eighth_pending)
  /\ (exists older recent,
         concat (repeat hola_exchange 7) = older ++ recent
         /\ length recent = Nat.min 12 (length (concat (repeat hola_exchange 7)))
         /\ messages eighth_pending
            = {| role := system; content := systemPrompt |}
                :: recent ++ [user_turn (text eighth_pending)])
  /\ app demo_env [] fourteen_stored anonymous (js "fresh-uuid")
     = ([(js "203.0.113.7", {| hits := 1; resetTime := 67000 |})],
        Await anonymous_pending)
  /\ sid anonymous_pending = JStr (js "fresh-uuid")
  /\ messages anonymous_pending
     = [ {| role := system; content := systemPrompt |};
         user_turn (text anonymous_pending) ].
Proof.
  assert (H8 : app demo_env [] fourteen_stored eighth (js "fresh-uuid")
               = ([(js "203.0.113.7", {| hits := 1; resetTime := 67000 |})],
                  Await eighth_pending)) by (vm_compute; reflexivity).
  assert (Han : app demo_env [] fourteen_stored anonymous (js "fresh-uuid")
                = ([(js "203.0.113.7", {| hits := 1; resetTime := 67000 |})],
                   Await anonymous_pending)) by (vm_compute; reflexivity).
  pose proof (C5_prompt_assembly demo_env [] fourteen_stored eighth
                (js "fresh-uuid") H8)
    as (_ & _ & _ & _ & _ & _ & _ & Hstored & _).
  pose proof (C5_prompt_assembly demo_env [] fourteen_stored anonymous
                (js "fresh-uuid") Han)
    as (_ & Hfresh & _ & _ & _ & _ & _ & _ & Habsent).
  split; [vm_compute; reflexivity|].
  split; [exact H8|].
  split.
  - apply (Hstored [] demo_key (concat (repeat hola_exchange 7)) []);
      [reflexivity | reflexivity | intros k' h' []].
  - split; [exact Han|].
    split; [apply Hfresh; reflexivity|].
    apply Habsent.
    intros k h [[= <- <-] | []]; vm_compute; reflexivity.
Defined.

(** ** Validation of the message *)

Lemma validation E sessions req uuid t :
  isAllowedOrigin E (origin_header req) = true ->
  truthy_str (OPENAI_API_KEY E) = true ->
  message_text req = Some t ->
  chat_handler_before_await E sessions req uuid
  = if negb (nonempty t) then Done empty_message
    else if 2000 <? length t then Done message_too_long
    else Await
           {| sid := js_or (body_field (js "sessionId") req) (JStr uuid);
              trimmedHistory :=
                slice_last 12
                  (history_of
                     (js_or (body_field (js "sessionId") req) (JStr uuid))
                     sessions);
              text := t;
              messages :=
                {| role := system; content := systemPrompt |}
                  :: slice_last 12
                       (history_of
                          (js_or (body_field (js "sessionId") req) (JStr uuid))
                          sessions)
                  ++ [user_turn t] |}.
Proof.
  intros Horigin Hkey; unfold message_text, chat_handler_before_await.
  rewrite Horigin, Hkey; simpl.
  destruct (ToString _) as [coerced|]; simpl; [|discriminate].
  intros [= <-]; reflexivity.
Qed.

(** C4: among the requests that reach the message checks of the handler
    (origin allowed, OPENAI_API_KEY set), one whose trimmed message has
    exactly 2000 code units passes the length check and is sent to the
    provider with that text, and one whose trimmed message has 2001 is
    answered 400 [El mensaje es demasiado largo...] without the provider
    being called. *)
Theorem C4_length_boundary E sessions req uuid t :
  isAllowedOrigin E (origin_header req) = true ->
  truthy_str (OPENAI_API_KEY E) = true ->
  message_text req = Some t ->
  (length t = 2000 ->
   exists p, chat_handler_before_await E sessions req uuid = Await p
             /\ text p = t)
  /\ (length t = 2001 ->
      chat_handler_before_await E sessions req uuid = Done message_too_long).
Proof.
  intros Horigin Hkey Htext.
  rewrite (validation E sessions req uuid Horigin Hkey Htext).
  split; intros Hlen.
  - destruct t as [|c t]; [discriminate|]; simpl nonempty; simpl negb.
    rewrite Hlen; simpl; eexists; split; reflexivity.
  - destruct t as [|c t]; [discriminate|]; simpl nonempty; simpl negb.
    rewrite Hlen; reflexivity.
Qed.

Lemma C4_witness_2000_and_2001 :
  (exists p,
      chat_handler_before_await demo_env []
        (demo_request 0 (Some (JStr (letters 2000)))) (js "fresh-uuid")
      = Await p /\ text p = letters 2000)
  /\ chat_handler_before_await demo_env []
       (demo_request 0 (Some (JStr (letters 2001)))) (js "fresh-uuid")
     = Done message_too_long.
Proof.
  split.
  - refine (proj1 (@C4_length_boundary demo_env []
                     (demo_request 0 (Some (JStr (letters 2000))))
                     (js "fresh-uuid") (letters 2000) _ _ _) _);
      vm_compute; reflexivity.
  - refine (proj2 (@C4_length_boundary demo_env []
                     (demo_request 0 (Some (JStr (letters 2001))))
                     (js "fresh-uuid") (letters 2001) _ _ _) _);
      vm_compute; reflexivity.
Defined.

(** C10: among the requests that reach the message checks of the
    handler, the message is judged by [String(message || "").trim()] and
    not by its JSON type.  A message that is missing, [null], [false],
    [0] or a string of white space only is answered 400 [Escribe un
    mensaje para poder ayudarte.]; any other value that is not a string
    is sent to the provider, with the trimmed text of its coercion,
    whenever that text is not empty and has at most 2000 code units. *)
Theorem C10_message_judged_by_coercion E sessions req uuid :
  isAllowedOrigin E (origin_header req) = true ->
  truthy_str (OPENAI_API_KEY E) = true ->
  (body_field (js "message") req = None
   \/ body_field (js "message") req = Some JNull
   \/ body_field (js "message") req = Some (JBool false)
   \/ body_field (js "message") req = Some (JNum (js "0"))
   \/ (exists s, body_field (js "message") req = Some (JStr s)
                 /\ trim s = []) ->
   chat_handler_before_await E sessions req uuid = Done empty_message)
  /\ (forall v s,
         body_field (js "message") req = Some v ->
         (forall s', v <> JStr s') ->
         v <> JNull -> v <> JBool false -> v <> JNum (js "0") ->
         ToString v = Some s ->
         trim s <> [] -> length (trim s) <= 2000 ->
         exists p, chat_handler_before_await E sessions req uuid = Await p
                   /\ text p = trim s).
Proof.
  intros Horigin Hkey; split.
  - intros Hblank.
    assert (Htext : message_text req = Some []).
    { unfold message_text.
      destruct Hblank as [-> | [-> | [-> | [-> | (s & -> & Hs)]]]];
        try reflexivity.
      destruct s as [|c s]; [reflexivity|]; simpl; rewrite Hs; reflexivity. }
    rewrite (validation E sessions req uuid Horigin Hkey Htext); reflexivity.
  - intros v s Hmsg Hstr Hnull Hfalse Hzero Hcoerce Hne Hlen.
    assert (Htruthy : truthy (Some v) = true).
    { destruct v as [|[|]|r|s'|items|members]; simpl; try reflexivity;
        try congruence.
      rewrite jsstring_eqb_neq; [reflexivity | congruence]. }
    assert (Htext : message_text req = Some (trim s)).
    { unfold message_text, js_or; rewrite Hmsg, Htruthy, Hcoerce.
      reflexivity. }
    rewrite (validation E sessions req uuid Horigin Hkey Htext).
    destruct (trim s) as [|c t] eqn:Ht; [congruence|]; simpl nonempty.
    apply Nat.ltb_ge in Hlen; rewrite Hlen; simpl.
    eexists; split; reflexivity.
Qed.

Lemma C10_witness_null_and_number :
  chat_handler_before_await demo_env [] (demo_request 0 (Some JNull))
    (js "fresh-uuid") = Done empty_message
  /\ exists p,
       chat_handler_before_await demo_env []
         (demo_request 0 (Some (JNum (js "42")))) (js "fresh-uuid") = Await p
       /\ text p = trim (js "42").
Proof.
  split.
  - refine (proj1 (@C10_message_judged_by_coercion demo_env []
                     (demo_request 0 (Some JNull)) (js "fresh-uuid")
                     eq_refl eq_refl) _).
    right; left; reflexivity.
  - refine (proj2 (@C10_message_judged_by_coercion demo_env []
                     (demo_request 0 (Some (JNum (js "42")))) (js "fresh-uuid")
                     eq_refl eq_refl)
              (JNum (js "42")) (js "42") eq_refl _ _ _ _ eq_refl _ _);
      try discriminate; try (vm_compute; discriminate).
    apply Nat.leb_le; vm_compute; reflexivity.
Defined.

(** ** The limiter *)

Lemma bucket_of_put_same key b L : bucket_of key (put_bucket key b L) = Some b.
Proof.
  induction L as [|[k b'] L IH]; simpl.
  - rewrite jsstring_eqb_refl; reflexivity.
  - destruct (jsstring_eqb key k) eqn:Hk; simpl; rewrite Hk; auto.
Qed.

Lemma bucket_of_put_other key k b L :
  jsstring_eqb k key = false ->
  bucket_of key (put_bucket k b L) = bucket_of key L.
Proof.
  intros Hk.
  assert (Hsym : jsstring_eqb key k = false).
  { destruct (jsstring_eqb key k) eqn:H; [|reflexivity].
    apply jsstring_eqb_eq in H; subst.
    rewrite jsstring_eqb_refl in Hk; discriminate. }
  induction L as [|[k' b'] L IH]; simpl.
  - rewrite Hsym; reflexivity.
  - destruct (jsstring_eqb k k') eqn:Hkk'; simpl.
    + apply jsstring_eqb_eq in Hkk'; subst k'; rewrite Hsym; reflexivity.
    + destruct (jsstring_eqb key k'); auto.
Qed.

Lemma chatLimiter_inside key L now h T :
  bucket_of key L = Some {| hits := h; resetTime := T |} ->
  (now < T)%Z ->
  chatLimiter L key now
  = (put_bucket key {| hits := S h; resetTime := T |} L, S h <=? max).
Proof.
  intros Hb Hnow; unfold chatLimiter; rewrite Hb; simpl.
  apply Z.ltb_lt in Hnow; rewrite Hnow; reflexivity.
Qed.

Lemma chatLimiter_opens key L now :
  window_opens key L now ->
  chatLimiter L key now
  = (put_bucket key {| hits := 1; resetTime := (now + windowMs)%Z |} L, true).
Proof.
  unfold window_opens, chatLimiter.
  destruct (bucket_of key L) as [b|]; [|reflexivity].
  intros Hover; apply Z.ltb_ge in Hover; rewrite Hover; reflexivity.
Qed.

Lemma chatLimiter_other key k L now :
  jsstring_eqb k key = false ->
  bucket_of key (fst (chatLimiter L k now)) = bucket_of key L.
Proof. intros Hk; unfold chatLimiter; simpl; apply bucket_of_put_other, Hk. Qed.

Lemma inside_window reqs : forall L key h T,
  bucket_of key L = Some {| hits := h; resetTime := T |} ->
  (forall t, In (key, t) reqs -> (t < T)%Z) ->
  bucket_of key (limiter_after L reqs)
  = Some {| hits := h + requests_for key reqs; resetTime := T |}
  /\ admitted_for key L reqs = Nat.min (requests_for key reqs) (max - h).
Proof.
  induction reqs as [|[k t] rest IH]; intros L key h T Hb Hin;
    cbn [limiter_after requests_for admitted_for].
  - rewrite Nat.add_0_r; split; [exact Hb | reflexivity].
  - destruct (jsstring_eqb k key) eqn:Hk.
    + apply jsstring_eqb_eq in Hk; subst k.
      rewrite (chatLimiter_inside key L Hb) by (apply Hin; left; reflexivity).
      cbn [fst snd andb].
      destruct (IH (put_bucket key {| hits := S h; resetTime := T |} L)
                  key (S h) T (bucket_of_put_same _ _ _)
                  (fun t H => Hin t (or_intror H))) as [Hafter Hcount].
      rewrite Hafter, Hcount; split; [f_equal; f_equal; lia|].
      destruct (Nat.leb_spec (S h) max); lia.
    + cbn [andb].
      assert (Hb' : bucket_of key (fst (chatLimiter L k t))
                    = Some {| hits := h; resetTime := T |})
        by (rewrite chatLimiter_other; assumption).
      destruct (IH _ key h T Hb' (fun t H => Hin t (or_intror H)))
        as [Hafter Hcount].
      rewrite Hafter, Hcount; split; [reflexivity | lia].
Qed.

(** C8: an address whose request at [t0] opens a window is admitted at
    most 20 times in that window of 60 000 ms, whatever other addresses
    do meanwhile: of its requests before [t0 + 60000] exactly the first
    20 go on; from the 21st on they are stopped, and the stack answers
    429 to a stopped request that passed the CORS layer; a request at or
    after [t0 + 60000] goes on again, to the route. *)
Theorem C8_twenty_per_window key L t0 reqs :
  window_opens key L t0 ->
  (forall t, In (key, t) reqs -> (t < t0 + 60 * 1000)%Z) ->
  admitted_for key L ((key, t0) :: reqs)
  = Nat.min (S (requests_for key reqs)) 20
  /\ (20 <= S (requests_for key reqs) ->
      forall t, (t < t0 + 60 * 1000)%Z ->
        snd (chatLimiter (limiter_after L ((key, t0) :: reqs)) key t) = false)
  /\ (forall t, (t0 + 60 * 1000 <= t)%Z ->
        snd (chatLimiter (limiter_after L ((key, t0) :: reqs)) key t) = true)
  /\ (forall E L0 sessions req uuid,
        cors_origin E (origin_header req) = None ->
        snd (app E L0 sessions req uuid)
        = if snd (chatLimiter L0 (ip req) (arrival req))
          then post_api_chat E sessions req uuid
          else Done too_many_requests)
  /\ status too_many_requests = 429.
Proof.
  intros Hopen Hin.
  cbn [admitted_for limiter_after].
  rewrite jsstring_eqb_refl, (chatLimiter_opens key L t0 Hopen).
  cbn [fst snd andb].
  destruct (inside_window reqs
              (put_bucket key
                 {| hits := 1; resetTime := (t0 + windowMs)%Z |} L)
              key (bucket_of_put_same _ _ _) Hin) as [Hafter Hcount].
  rewrite Hcount.
  split; [unfold max; lia|].
  split; [|split; [|split; [|reflexivity]]].
  - intros Hfull t Ht.
    rewrite (chatLimiter_inside key _ Hafter Ht); cbn [snd].
    apply Nat.leb_gt; unfold max; lia.
  - intros t Ht; rewrite chatLimiter_opens; [reflexivity|].
    unfold window_opens; rewrite Hafter; exact Ht.
  - intros E L0 sessions req uuid Hcors; unfold app; rewrite Hcors.
    destruct (chatLimiter L0 (ip req) (arrival req)) as [L' [|]];
      reflexivity.
Qed.

Lemma C8_witness_burst :
  admitted_for demo_ip [] ((demo_ip, 0%Z) :: burst) = 20
  /\ snd (chatLimiter (limiter_after [] ((demo_ip, 0%Z) :: burst))
            demo_ip 59999) = false
  /\ snd (chatLimiter (limiter_after [] ((demo_ip, 0%Z) :: burst))
            demo_ip 60000) = true.
Proof.
  assert (Hin : forall t, In (demo_ip, t) burst -> (t < 0 + 60 * 1000)%Z).
  { intros t H.
    assert (Hall : forallb (fun kt => (snd kt <? 60000)%Z) burst = true)
      by (vm_compute; reflexivity).
    rewrite forallb_forall in Hall; apply Hall in H.
    apply Z.ltb_lt in H; exact H. }
  destruct (@C8_twenty_per_window demo_ip [] 0%Z burst I Hin)
    as (Hcount & Hfull & Hreset & _).
  split; [rewrite Hcount; vm_compute; reflexivity|]; split.
  - apply Hfull; [apply Nat.leb_le; vm_compute; reflexivity | reflexivity].
  - apply Hreset; vm_compute; intros H; discriminate H.
Defined.

(** * Further properties of server.js *)

(** ** [trim] and [split] as the source uses them *)

Lemma forallb_false_witness {A : Type} (f : A -> bool) (l : list A) :
  forallb f l = false -> exists x, In x l /\ f x = false.
Proof.
  induction l as [|x l IH]; simpl; [discriminate|].
  destruct (f x) eqn:Hx; simpl.
  - intros H; destruct (IH H) as (y & Hy & Hfy); exists y; auto.
  - intros _; exists x; auto.
Qed.

Lemma blank_rev (w : jsstring) : blank w = true -> blank (rev w) = true.
Proof.
  unfold blank; rewrite !forallb_forall; intros H c Hc.
  apply H, in_rev; exact Hc.
Qed.

Lemma trimStart_decomp (s : jsstring) :
  exists w, s = w ++ trimStart s /\ blank w = true.
Proof.
  induction s as [|c s (w & Hw & Hb)]; simpl; [exists []; auto|].
  destruct (is_whitespace c) eqn:Hc.
  - exists (c :: w); simpl; rewrite Hc, Hb; split; [f_equal; exact Hw | reflexivity].
  - exists []; auto.
Qed.

Lemma trimStart_head (s : jsstring) c r :
  trimStart s = c :: r -> is_whitespace c = false.
Proof.
  induction s as [|d s IH]; simpl; [discriminate|].
  destruct (is_whitespace d) eqn:Hd; [exact IH|].
  intros [= <- _]; exact Hd.
Qed.

Lemma trimStart_id (s : jsstring) :
  (forall c r, s = c :: r -> is_whitespace c = false) -> trimStart s = s.
Proof.
  destruct s as [|c s]; simpl; [reflexivity|].
  intros H; rewrite (H c s eq_refl); reflexivity.
Qed.

Lemma trimStart_idem (s : jsstring) : trimStart (trimStart s) = trimStart s.
Proof. apply trimStart_id; intros c r H; exact (trimStart_head _ H). Qed.

Lemma trimStart_blank (s : jsstring) : blank s = true -> trimStart s = [].
Proof.
  induction s as [|c s IH]; simpl; [reflexivity|].
  destruct (is_whitespace c); simpl; [exact IH | discriminate].
Qed.

Lemma trimEnd_decomp (s : jsstring) :
  exists w, s = trimEnd s ++ w /\ blank w = true.
Proof.
  destruct (trimStart_decomp (rev s)) as (w & Hw & Hb).
  exists (rev w); split; [|apply blank_rev, Hb].
  unfold trimEnd; rewrite <- rev_app_distr, <- Hw, rev_involutive; reflexivity.
Qed.

Lemma trim_decomp (s : jsstring) :
  exists pre post,
    s = pre ++ trim s ++ post /\ blank pre = true /\ blank post = true.
Proof.
  destruct (trimStart_decomp s) as (pre & Hpre & Hbpre).
  destruct (trimEnd_decomp (trimStart s)) as (post & Hpost & Hbpost).
  exists pre, post; unfold trim; rewrite <- Hpost; auto.
Qed.

Lemma trim_head (s : jsstring) c r :
  trim s = c :: r -> is_whitespace c = false.
Proof.
  intros H; destruct (trimEnd_decomp (trimStart s)) as (w & Hw & _).
  fold (trim s) in Hw; rewrite H in Hw; simpl in Hw.
  exact (trimStart_head _ Hw).
Qed.

Lemma trim_last (s : jsstring) r c :
  trim s = r ++ [c] -> is_whitespace c = false.
Proof.
  unfold trim, trimEnd; intros H.
  apply (f_equal (@rev _)) in H.
  rewrite rev_involutive, rev_app_distr in H; simpl in H.
  exact (trimStart_head _ H).
Qed.

Lemma trim_idem (s : jsstring) : trim (trim s) = trim s.
Proof.
  assert (Hstart : trimStart (trim s) = trim s)
    by (apply trimStart_id; intros c r H; exact (trim_head _ H)).
  unfold trim at 1; rewrite Hstart.
  unfold trim, trimEnd; rewrite rev_involutive, trimStart_idem; reflexivity.
Qed.

Lemma trim_blank (s : jsstring) : blank s = true -> trim s = [].
Proof. intros H; unfold trim; rewrite (trimStart_blank _ H); reflexivity. Qed.

Lemma trim_In (s : jsstring) c : In c (trim s) -> In c s.
Proof.
  destruct (trim_decomp s) as (pre & post & Hs & _).
  intros H; rewrite Hs, !in_app_iff; auto.
Qed.

Lemma trim_keeps (s : jsstring) c :
  In c s -> is_whitespace c = false -> In c (trim s).
Proof.
  destruct (trim_decomp s) as (pre & post & Hs & Hpre & Hpost).
  unfold blank in Hpre, Hpost; rewrite forallb_forall in Hpre, Hpost.
  intros Hin Hc; rewrite Hs, !in_app_iff in Hin.
  destruct Hin as [H | [H | H]]; [|exact H|].
  - apply Hpre in H; congruence.
  - apply Hpost in H; congruence.
Qed.

Lemma split_not_nil sep (s : jsstring) : split sep s <> [].
Proof.
  destruct s as [|c s]; simpl; [discriminate|].
  destruct (c =? sep)%N; [discriminate|].
  destruct (split sep s); discriminate.
Qed.

Lemma split_piece sep (s : jsstring) : forall p c,
  In p (split sep s) -> In c p -> In c s /\ c <> sep.
Proof.
  induction s as [|d s IH]; simpl; intros p c Hp Hc.
  - destruct Hp as [<- | []]; destruct Hc.
  - destruct (d =? sep)%N eqn:Hd.
    + destruct Hp as [<- | Hp]; [destruct Hc|].
      destruct (IH p c Hp Hc); auto.
    + apply N.eqb_neq in Hd.
      destruct (split sep s) as [|piece rest] eqn:Hsplit.
      * destruct Hp as [<- | []]; destruct Hc as [<- | []]; auto.
      * destruct Hp as [<- | Hp].
        -- destruct Hc as [<- | Hc]; [auto|].
           destruct (IH piece c (or_introl eq_refl) Hc); auto.
        -- destruct (IH p c (or_intror Hp) Hc); auto.
Qed.

Lemma split_covers sep (s : jsstring) c :
  In c s -> c <> sep -> exists p, In p (split sep s) /\ In c p.
Proof.
  induction s as [|d s IH]; simpl; [intros []|].
  intros Hin Hc; destruct (d =? sep)%N eqn:Hd.
  - apply N.eqb_eq in Hd; destruct Hin as [-> | Hin]; [contradiction|].
    destruct (IH Hin Hc) as (p & Hp & Hcp); exists p; simpl; auto.
  - destruct (split sep s) as [|piece rest] eqn:Hsplit.
    + exfalso; exact (split_not_nil _ _ Hsplit).
    + destruct Hin as [-> | Hin].
      * exists (c :: piece); simpl; auto.
      * destruct (IH Hin Hc) as (p & [<- | Hp] & Hcp).
        -- exists (d :: piece); simpl; auto.
        -- exists p; simpl; auto.
Qed.

Lemma split_plain sep (p : jsstring) : ~ In sep p -> split sep p = [p].
Proof.
  induction p as [|c p IH]; simpl; [reflexivity|].
  intros H; destruct (c =? sep)%N eqn:Hc.
  - apply N.eqb_eq in Hc; subst; exfalso; auto.
  - rewrite IH by auto; reflexivity.
Qed.

Lemma split_app sep (p s : jsstring) :
  ~ In sep p -> split sep (p ++ sep :: s) = p :: split sep s.
Proof.
  induction p as [|c p IH]; simpl; intros H.
  - rewrite N.eqb_refl; reflexivity.
  - destruct (c =? sep)%N eqn:Hc.
    + apply N.eqb_eq in Hc; subst; exfalso; auto.
    + rewrite IH by auto; reflexivity.
Qed.

Lemma split_join sep (pieces : list jsstring) :
  pieces <> [] -> (forall p, In p pieces -> ~ In sep p) ->
  split sep (join sep pieces) = pieces.
Proof.
  induction pieces as [|p rest IH]; [congruence|].
  intros _ Hfree; simpl; destruct rest as [|q rest].
  - apply split_plain, Hfree; left; reflexivity.
  - rewrite split_app by (apply Hfree; left; reflexivity).
    f_equal; apply IH; [discriminate|].
    intros x Hx; apply Hfree; right; exact Hx.
Qed.

(** ** The allow-list read from the environment *)

Lemma filter_none {A : Type} (f : A -> bool) (l : list A) :
  (forall x, In x l -> f x = false) -> filter f l = [].
Proof.
  induction l as [|x l IH]; simpl; intros H; [reflexivity|].
  rewrite (H x (or_introl eq_refl)); apply IH; auto.
Qed.

Lemma filter_all {A : Type} (f : A -> bool) (l : list A) :
  (forall x, In x l -> f x = true) -> filter f l = l.
Proof.
  induction l as [|x l IH]; simpl; intros H; [reflexivity|].
  rewrite (H x (or_introl eq_refl)), IH; auto.
Qed.

Lemma nonempty_true (s : jsstring) : nonempty s = true <-> s <> [].
Proof. destruct s; simpl; split; congruence. Qed.

Lemma allowedFromEnv_text (E : env) :
  allowedFromEnv E
  = filter nonempty (map trim (split comma (origins_text E))).
Proof.
  unfold allowedFromEnv, origins_text.
  destruct (ALLOWED_ORIGINS E) as [[|c s]|]; reflexivity.
Qed.

Lemma allowedFromEnv_In (E : env) (o : jsstring) :
  In o (allowedFromEnv E)
  <-> o <> [] /\ exists piece,
        In piece (split comma (origins_text E)) /\ trim piece = o.
Proof.
  rewrite allowedFromEnv_text, filter_In, in_map_iff, nonempty_true.
  split.
  - intros [(piece & Ht & Hp) Hne]; split; [exact Hne | exists piece; auto].
  - intros [Hne (piece & Hp & Ht)]; split; [exists piece; auto | exact Hne].
Qed.

Lemma allowedOrigins_cases (E : env) (o : jsstring) :
  In o (allowedOrigins E) -> In o (allowedFromEnv E) \/ In o defaultAllowed.
Proof.
  unfold allowedOrigins; destruct (allowedFromEnv E); auto.
Qed.

Lemma allowed_nonempty (E : env) (o : jsstring) :
  In o (allowedOrigins E) -> nonempty o = true.
Proof.
  intros H; destruct (allowedOrigins_cases E o H) as [Henv | Hdef].
  - apply nonempty_true, (allowedFromEnv_In E o), Henv.
  - destruct Hdef as [<- | [<- | []]]; reflexivity.
Qed.

Lemma no_comma_check (s : jsstring) :
  existsb (N.eqb comma) s = false -> ~ In comma s.
Proof.
  intros H Hin.
  assert (Hex : existsb (N.eqb comma) s = true)
    by (apply existsb_exists; exists comma; split; [exact Hin | apply N.eqb_refl]).
  congruence.
Qed.

(** X1 (server.js, lines 30-42): whatever ALLOWED_ORIGINS holds, no
    allowed origin is the empty string, none starts or ends with white
    space (each is its own [trim]), and none contains a comma. *)
Theorem allowed_origins_are_clean (E : env) (o : jsstring) :
  In o (allowedOrigins E) ->
  o <> [] /\ trim o = o /\ ~ In comma o.
Proof.
  intros H; destruct (allowedOrigins_cases E o H) as [Henv | Hdef].
  - apply allowedFromEnv_In in Henv.
    destruct Henv as [Hne (piece & Hp & <-)].
    split; [exact Hne|]; split; [apply trim_idem|].
    intros Hc; apply trim_In in Hc.
    destruct (split_piece _ _ _ _ Hp Hc) as [_ Hneq]; congruence.
  - destruct Hdef as [<- | [<- | []]];
      (split; [discriminate|]; split;
       [vm_compute; reflexivity | apply no_comma_check; vm_compute; reflexivity]).
Qed.

Lemma allowed_origins_are_clean_witness :
  allowedOrigins two_origins_env
  = [js "https://a.example"; js "https://b.example"]
  /\ trim (js "https://b.example") = js "https://b.example".
Proof.
  split; [vm_compute; reflexivity|].
  refine (proj1 (proj2 (@allowed_origins_are_clean two_origins_env
                          (js "https://b.example") _))).
  vm_compute; right; left; reflexivity.
Defined.

Lemma separators_only_pieces_blank (s piece : jsstring) :
  separators_only s = true -> In piece (split comma s) -> blank piece = true.
Proof.
  unfold separators_only, blank; rewrite !forallb_forall.
  intros Hs Hp c Hc; destruct (split_piece _ _ _ _ Hp Hc) as [Hin Hneq].
  specialize (Hs c Hin); apply orb_true_iff in Hs.
  destruct Hs as [Hs | Hs]; [apply N.eqb_eq in Hs; congruence | exact Hs].
Qed.

Lemma allowedFromEnv_nil_iff (E : env) :
  allowedFromEnv E = [] <-> separators_only (origins_text E) = true.
Proof.
  split.
  - intros Hnil; destruct (separators_only (origins_text E)) eqn:Hsep;
      [reflexivity | exfalso].
    apply forallb_false_witness in Hsep; destruct Hsep as (c & Hin & Hc).
    apply orb_false_iff in Hc; destruct Hc as [Hcomma Hws].
    apply N.eqb_neq in Hcomma.
    destruct (@split_covers comma _ c Hin Hcomma) as (piece & Hp & Hcp).
    assert (Hmem : In (trim piece) (allowedFromEnv E)).
    { apply allowedFromEnv_In; split; [|exists piece; auto].
      intros Hempty; pose proof (trim_keeps piece c Hcp Hws) as Hk.
      rewrite Hempty in Hk; exact Hk. }
    rewrite Hnil in Hmem; exact Hmem.
  - intros Hsep; rewrite allowedFromEnv_text; apply filter_none.
    intros o Ho; apply in_map_iff in Ho; destruct Ho as (piece & <- & Hp).
    rewrite (trim_blank piece (separators_only_pieces_blank _ _ Hsep Hp)).
    reflexivity.
Qed.

(** X2 (server.js, lines 30-42): the two default origins are the
    allow-list exactly when ALLOWED_ORIGINS names no origin, that is,
    when it is unset, empty, or made of commas and white space only;
    otherwise the allow-list is the list read from the variable, which
    is then not empty, and the defaults are not added to it. *)
Theorem defaults_apply_iff_no_origin_named (E : env) :
  (allowedFromEnv E = [] <-> separators_only (origins_text E) = true)
  /\ allowedOrigins E
     = (if separators_only (origins_text E) then defaultAllowed
        else allowedFromEnv E).
Proof.
  split; [apply allowedFromEnv_nil_iff|].
  unfold allowedOrigins.
  destruct (separators_only (origins_text E)) eqn:Hsep.
  - rewrite (proj2 (allowedFromEnv_nil_iff E) Hsep); reflexivity.
  - destruct (allowedFromEnv E) eqn:Hl; [|reflexivity].
    apply allowedFromEnv_nil_iff in Hl; congruence.
Qed.

(** X3 (server.js, lines 35-42): reading back a list.  When
    ALLOWED_ORIGINS is a non-empty list of origins joined by commas,
    each origin non-empty, without surrounding white space and without
    a comma, the array read from the variable is that list, in that
    order and with its repetitions; the set built from it has exactly
    the members of the list, and when no origin is repeated it holds
    them in that order. *)
Theorem allowed_origins_read_back (E : env) (l : list jsstring) :
  l <> [] ->
  (forall o, In o l -> o <> [] /\ trim o = o /\ ~ In comma o) ->
  ALLOWED_ORIGINS E = Some (join comma l) ->
  allowedFromEnv E = l
  /\ (forall o, In o (allowedOrigins E) <-> In o l)
  /\ (forall origin,
         isAllowedOrigin E origin = true
         <-> exists o, origin = Some o /\ In o l)
  /\ (NoDup l -> allowedOrigins E = l).
Proof.
  intros Hl Hclean Henv.
  assert (Hfrom : allowedFromEnv E = l).
  { rewrite allowedFromEnv_text; unfold origins_text; rewrite Henv.
    rewrite split_join by (auto || intros p Hp; apply (Hclean p Hp)).
    rewrite (map_ext_in trim (fun x => x)), map_id
      by (intros o Ho; apply (Hclean o Ho)).
    apply filter_all; intros o Ho; apply nonempty_true, (Hclean o Ho). }
  assert (Hset : allowedOrigins E = l).
  { unfold allowedOrigins; rewrite Hfrom.
    destruct l; [congruence | reflexivity]. }
  split; [exact Hfrom|].
  split; [intros o; rewrite Hset; reflexivity|].
  split; [|intros _; exact Hset].
  intros origin; split.
  - destruct origin as [o|]; [|discriminate].
    intros H; exists o; split; [reflexivity|].
    rewrite <- Hset; apply isAllowedOrigin_member, H.
  - intros (o & -> & Hin); cbn [isAllowedOrigin].
    destruct (Hclean o Hin) as [Hne _].
    rewrite (proj2 (nonempty_true o) Hne); cbn [andb].
    apply has_In; rewrite Hset; exact Hin.
Qed.

Lemma allowed_origins_read_back_witness :
  allowedFromEnv
    {| ALLOWED_ORIGINS :=
         Some (join comma [js "https://a.example"; js "https://b.example";
                           js "https://a.example"]);
       WIDGET_TOKEN := None; OPENAI_API_KEY := None |}
  = [js "https://a.example"; js "https://b.example"; js "https://a.example"]
  /\ isAllowedOrigin
       {| ALLOWED_ORIGINS :=
            Some (join comma [js "https://a.example"; js "https://b.example";
                              js "https://a.example"]);
          WIDGET_TOKEN := None; OPENAI_API_KEY := None |}
       (Some (js "https://b.example")) = true.
Proof.
  destruct (@allowed_origins_read_back
              {| ALLOWED_ORIGINS :=
                   Some (join comma [js "https://a.example";
                                     js "https://b.example";
                                     js "https://a.example"]);
                 WIDGET_TOKEN := None; OPENAI_API_KEY := None |}
              [js "https://a.example"; js "https://b.example";
               js "https://a.example"])
    as (Hfrom & _ & Hmember & _).
  - discriminate.
  - intros o [<- | [<- | [<- | []]]];
      (split; [discriminate|]; split;
       [vm_compute; reflexivity | apply no_comma_check; vm_compute; reflexivity]).
  - reflexivity.
  - split; [exact Hfrom|].
    apply Hmember; exists (js "https://b.example"); split; [reflexivity|].
    right; left; reflexivity.
Defined.

(** X4 (server.js, lines 45-47): [isAllowedOrigin] is membership in the
    allow-list and nothing else: an absent header is not allowed, and
    the test [origin &&] never turns down a member, since no member is
    empty. *)
Theorem isAllowedOrigin_iff_member (E : env) (origin : option jsstring) :
  isAllowedOrigin E origin = true
  <-> exists o, origin = Some o /\ In o (allowedOrigins E).
Proof.
  split.
  - destruct origin as [o|]; [|discriminate].
    intros H; exists o; split; [reflexivity | apply isAllowedOrigin_member, H].
  - intros (o & -> & Hin); simpl.
    rewrite (allowed_nonempty E o Hin); simpl; apply has_In, Hin.
Qed.

(** ** The stack as a whole *)

Lemma cors_origin_iff (E : env) (origin : option jsstring) :
  cors_origin E origin = None <-> isAllowedOrigin E origin = true.
Proof.
  unfold cors_origin; destruct origin as [[|c o]|]; simpl;
    try (split; discriminate).
  destruct (has (allowedOrigins E) (c :: o)); simpl; split;
    congruence.
Qed.

Lemma app_origin_refused E L sessions req uuid :
  isAllowedOrigin E (origin_header req) = false ->
  app E L sessions req uuid = (L, Done forbidden_origin).
Proof.
  intros Hnot; unfold app, cors_origin; rewrite Hnot.
  destruct (truthy_str (origin_header req)); reflexivity.
Qed.

Lemma app_origin_allowed E L sessions req uuid :
  isAllowedOrigin E (origin_header req) = true ->
  app E L sessions req uuid
  = (fst (chatLimiter L (ip req) (arrival req)),
     if snd (chatLimiter L (ip req) (arrival req))
     then post_api_chat E sessions req uuid
     else Done too_many_requests).
Proof.
  intros Hok; unfold app.
  rewrite (proj2 (cors_origin_iff E (origin_header req)) Hok).
  destruct (chatLimiter L (ip req) (arrival req)) as [L' [|]]; reflexivity.
Qed.

Lemma token_ok_iff (E : env) (req : request) :
  requireWidgetToken E req = None
  <-> exists secret, secret <> []
        /\ WIDGET_TOKEN E = Some secret /\ widget_token req = Some secret.
Proof.
  unfold requireWidgetToken; split.
  - destruct (WIDGET_TOKEN E) as [[|c x]|];
      cbn [truthy_str nonempty negb]; try discriminate.
    destruct (widget_token req) as [[|d y]|];
      cbn [truthy_str nonempty negb orb]; try discriminate.
    destruct (jsstring_eqb (d :: y) (c :: x)) eqn:Heq;
      cbn [negb]; [|discriminate].
    apply jsstring_eqb_eq in Heq; rewrite Heq; intros _.
    exists (c :: x); repeat split; discriminate.
  - intros (secret & Hne & -> & ->).
    destruct secret as [|c x]; [congruence|].
    cbn [truthy_str nonempty negb orb].
    rewrite jsstring_eqb_refl; reflexivity.
Qed.

Lemma token_refused (E : env) (req : request) r :
  requireWidgetToken E req = Some r ->
  r = missing_widget_token \/ r = unauthorized.
Proof.
  unfold requireWidgetToken.
  destruct (negb (truthy_str (WIDGET_TOKEN E))); [intros [= <-]; auto|].
  destruct (_ || _); [intros [= <-]; auto | discriminate].
Qed.

Lemma before_await_done E sessions req uuid r :
  chat_handler_before_await E sessions req uuid = Done r ->
  (isAllowedOrigin E (origin_header req) = false /\ r = forbidden_origin)
  \/ (isAllowedOrigin E (origin_header req) = true
      /\ (r = missing_api_key \/ r = generic_error
          \/ r = empty_message \/ r = message_too_long)).
Proof.
  unfold chat_handler_before_await.
  destruct (isAllowedOrigin E (origin_header req)); cbn [negb];
    [|intros [= <-]; left; split; reflexivity].
  intros H; right; split; [reflexivity|]; revert H.
  destruct (truthy_str (OPENAI_API_KEY E)); cbn [negb];
    [|intros [= <-]; left; reflexivity].
  destruct (ToString _) as [coerced|];
    [|intros [= <-]; right; left; reflexivity].
  destruct (nonempty (trim coerced)); cbn [negb];
    [|intros [= <-]; right; right; left; reflexivity].
  destruct (2000 <? length (trim coerced));
    [intros [= <-]; right; right; right; reflexivity | discriminate].
Qed.

(** Membership of a response in a list of responses, found by name. *)
Ltac listed :=
  repeat lazymatch goal with
         | |- In ?x (?x :: _) => left; reflexivity
         | |- In _ (_ :: _) => right
         end.

(** X5 (server.js, lines 52-67 and 148-152): the CORS layer and the
    check inside the handler decide alike, so the stack answers 403
    exactly to the requests whose origin is not allowed, and that answer
    is the first layer's: the limiter is left as it was and the
    handler's own origin check never rejects a request that got to it
    through the stack. *)
Theorem origin_403_iff_not_allowed E L sessions req uuid :
  (cors_origin E (origin_header req) = None
   <-> isAllowedOrigin E (origin_header req) = true)
  /\ ((exists r, snd (app E L sessions req uuid) = Done r /\ status r = 403)
      <-> isAllowedOrigin E (origin_header req) = false)
  /\ (isAllowedOrigin E (origin_header req) = false ->
      fst (app E L sessions req uuid) = L).
Proof.
  split; [apply cors_origin_iff|]; split.
  - split.
    + intros (r & Hr & H403).
      destruct (isAllowedOrigin E (origin_header req)) eqn:Hok;
        [exfalso | reflexivity].
      rewrite (app_origin_allowed E L sessions req uuid Hok) in Hr.
      cbn [snd] in Hr.
      destruct (snd (chatLimiter L (ip req) (arrival req)));
        [|injection Hr as <-; vm_compute in H403; discriminate].
      unfold post_api_chat in Hr.
      destruct (requireWidgetToken E req) as [r'|] eqn:Htok.
      * injection Hr as <-.
        destruct (token_refused _ _ Htok) as [-> | ->];
          vm_compute in H403; discriminate.
      * apply before_await_done in Hr.
        destruct Hr as [[Hno _] | [_ [-> | [-> | [-> | ->]]]]];
          [congruence | | | |]; vm_compute in H403; discriminate.
    + intros Hnot; exists forbidden_origin.
      rewrite (app_origin_refused E L sessions req uuid Hnot); auto.
  - intros Hnot; rewrite (app_origin_refused E L sessions req uuid Hnot).
    reflexivity.
Qed.

Lemma origin_403_iff_not_allowed_witness :
  isAllowedOrigin demo_env (origin_header (no_header 0)) = false
  /\ fst (app demo_env [] [] (no_header 0) (js "fresh-uuid")) = [].
Proof.
  split; [reflexivity|].
  exact (proj2 (proj2 (@origin_403_iff_not_allowed demo_env [] []
                         (no_header 0) (js "fresh-uuid"))) eq_refl).
Defined.

(** X6 (server.js, lines 52-67, 128-141, 146-173 and the CORS branch
    of 213-219): for a request whose body the parser has accepted, an
    answer given without calling the provider is one of eight fixed
    responses, so it repeats nothing of the request and carries no
    session identifier.  The errors the CORS callback raises all take
    the 403 branch of the error handler; its other branch, which passes
    an error on, is for errors raised elsewhere (by the body parser, on
    requests that are not in this domain). *)
Theorem early_answers_are_fixed E L sessions req uuid r :
  snd (app E L sessions req uuid) = Done r ->
  In r [ forbidden_origin; too_many_requests; missing_widget_token;
         unauthorized; missing_api_key; generic_error; empty_message;
         message_too_long ]
  /\ sessionId r = None
  /\ In (status r) [400; 401; 403; 429; 500]
  /\ (forall err, cors_origin E (origin_header req) = Some err ->
                  startsWith (js "CORS:") err = true
                  /\ r = forbidden_origin).
Proof.
  intros Hr.
  assert (Hin : In r [ forbidden_origin; too_many_requests;
                       missing_widget_token; unauthorized; missing_api_key;
                       generic_error; empty_message; message_too_long ]).
  { destruct (isAllowedOrigin E (origin_header req)) eqn:Hok.
    - rewrite (app_origin_allowed E L sessions req uuid Hok) in Hr.
      cbn [snd] in Hr.
      destruct (snd (chatLimiter L (ip req) (arrival req)));
        [|injection Hr as <-; listed].
      unfold post_api_chat in Hr.
      destruct (requireWidgetToken E req) as [r'|] eqn:Htok.
      + injection Hr as <-.
        destruct (token_refused _ _ Htok) as [-> | ->]; listed.
      + apply before_await_done in Hr.
        destruct Hr as [[_ ->] | [_ [-> | [-> | [-> | ->]]]]]; listed.
    - rewrite (app_origin_refused E L sessions req uuid Hok) in Hr.
      injection Hr as <-; listed. }
  split; [exact Hin|].
  assert (Hfields : sessionId r = None /\ In (status r) [400; 401; 403; 429; 500]).
  { cbn [In] in Hin.
    repeat (destruct Hin as [<- | Hin];
            [split; [reflexivity | vm_compute; tauto]|]).
    destruct Hin. }
  split; [apply Hfields|]; split; [apply Hfields|].
  intros err Herr; split.
  - unfold cors_origin in Herr.
    destruct (negb (truthy_str (origin_header req)));
      [injection Herr as <-; vm_compute; reflexivity|].
    destruct (isAllowedOrigin E (origin_header req));
      [discriminate | injection Herr as <-; vm_compute; reflexivity].
  - unfold app in Hr; rewrite Herr in Hr; cbn [snd] in Hr.
    injection Hr as <-; exact (cors_error_is_403 _ _ Herr).
Qed.

Lemma early_answers_are_fixed_witness :
  snd (app demo_env [] [] no_token (js "fresh-uuid")) = Done unauthorized
  /\ sessionId unauthorized = None.
Proof.
  assert (H : snd (app demo_env [] [] no_token (js "fresh-uuid"))
              = Done unauthorized) by (vm_compute; reflexivity).
  split; [exact H|].
  exact (proj1 (proj2 (@early_answers_are_fixed demo_env [] [] no_token
                         (js "fresh-uuid") unauthorized H))).
Defined.

(** X7 (server.js, lines 52-67, 78-84, 128-141 and 146-189): the
    provider is called for a request if and only if its origin is
    allowed, the limiter lets it through, WIDGET_TOKEN is set and the
    header repeats it exactly, OPENAI_API_KEY is set, and the coerced,
    trimmed message is not empty and has at most 2000 code units. *)
Theorem provider_called_iff E L sessions req uuid :
  (exists L' p, app E L sessions req uuid = (L', Await p))
  <-> isAllowedOrigin E (origin_header req) = true
      /\ snd (chatLimiter L (ip req) (arrival req)) = true
      /\ (exists secret, secret <> []
            /\ WIDGET_TOKEN E = Some secret
            /\ widget_token req = Some secret)
      /\ truthy_str (OPENAI_API_KEY E) = true
      /\ exists t, message_text req = Some t /\ t <> [] /\ length t <= 2000.
Proof.
  split.
  - intros (L' & p & Happ).
    destruct (app_inv _ _ _ _ _ Happ) as (Hcors & Hlim & Hroute).
    destruct (route_inv _ _ _ _ Hroute) as [Htok Hbefore].
    destruct (before_await_inv _ _ _ _ Hbefore)
      as (Hok & Hkey & Htext & Hne & Hlen & _).
    repeat split; auto.
    + rewrite Hlim; reflexivity.
    + apply token_ok_iff, Htok.
    + exists (text p); repeat split; auto; apply nonempty_true, Hne.
  - intros (Hok & Hlim & Htok & Hkey & t & Htext & Hne & Hlen).
    rewrite (app_origin_allowed E L sessions req uuid Hok), Hlim.
    unfold post_api_chat; rewrite (proj2 (token_ok_iff E req) Htok).
    rewrite (validation E sessions req uuid Hok Hkey Htext).
    apply nonempty_true in Hne; rewrite Hne; simpl.
    apply Nat.ltb_ge in Hlen; rewrite Hlen.
    eexists; eexists; reflexivity.
Qed.

(** ** Who spends the budget of the limiter *)

Lemma limiter_of_step E st ev :
  limiter_of (fst (step E st ev))
  = limiter_after (limiter_of st) (reaching_limiter E [ev]).
Proof.
  destruct ev as [req uuid | i outcome]; cbn [reaching_limiter].
  - cbn [step].
    destruct (isAllowedOrigin E (origin_header req)) eqn:Hok.
    + rewrite (app_origin_allowed E _ (sessions_of st) req uuid Hok).
      destruct (if snd (chatLimiter (limiter_of st) (ip req) (arrival req))
                then post_api_chat E (sessions_of st) req uuid
                else Done too_many_requests); reflexivity.
    + rewrite (app_origin_refused E _ (sessions_of st) req uuid Hok).
      reflexivity.
  - cbn [step]; destruct (nth_error (in_flight st) i); [|reflexivity].
    destruct (chat_handler_after_await (sessions_of st) p outcome);
      reflexivity.
Qed.

Lemma limiter_of_run E evs : forall st,
  limiter_of (run E st evs)
  = limiter_after (limiter_of st) (reaching_limiter E evs).
Proof.
  induction evs as [|ev evs IH]; intros st; [reflexivity|].
  cbn [run]; rewrite IH, limiter_of_step.
  destruct ev as [req uuid | i outcome]; cbn [reaching_limiter];
    [|reflexivity].
  destruct (isAllowedOrigin E (origin_header req)); reflexivity.
Qed.

(** X8 (server.js, lines 52-84 and 146): the limiter sits in front of
    the token check, so every request that passes the CORS layer spends
    the budget of its address, also one that is then refused for its
    token or its message.  Once an address has sent 20 such requests in
    a window, whatever their tokens and bodies, its next request in the
    window is answered 429, however valid it is.  (The window itself is
    the limiter's, modelled as for C8.) *)
Theorem budget_is_spent_before_the_token_check
    E st req0 uuid0 evs req uuid :
  isAllowedOrigin E (origin_header req0) = true ->
  window_opens (ip req0) (limiter_of st) (arrival req0) ->
  (forall t, In (ip req0, t) (reaching_limiter E evs) ->
             (t < arrival req0 + 60 * 1000)%Z) ->
  19 <= requests_for (ip req0) (reaching_limiter E evs) ->
  isAllowedOrigin E (origin_header req) = true ->
  ip req = ip req0 ->
  (arrival req < arrival req0 + 60 * 1000)%Z ->
  snd (step E (run E st (Arrives req0 uuid0 :: evs)) (Arrives req uuid))
  = Some too_many_requests.
Proof.
  intros Hok0 Hopen Hin Hfull Hok Hip Hnow.
  assert (Hlim : snd (chatLimiter
                        (limiter_of (run E st (Arrives req0 uuid0 :: evs)))
                        (ip req) (arrival req)) = false).
  { rewrite limiter_of_run; cbn [reaching_limiter]; rewrite Hok0, Hip.
    cbn [limiter_after].
    rewrite (chatLimiter_opens (ip req0) (limiter_of st) (arrival req0) Hopen).
    cbn [fst].
    destruct (inside_window (reaching_limiter E evs)
                (put_bucket (ip req0)
                   {| hits := 1;
                      resetTime := (arrival req0 + windowMs)%Z |}
                   (limiter_of st))
                (ip req0) (bucket_of_put_same _ _ _) Hin) as [Hafter _].
    rewrite (chatLimiter_inside (ip req0) _ Hafter Hnow); cbn [snd].
    apply Nat.leb_gt; unfold max; lia. }
  cbn [step].
  rewrite (app_origin_allowed E _ _ req uuid Hok), Hlim; reflexivity.
Qed.

Lemma budget_is_spent_before_the_token_check_witness :
  requireWidgetToken demo_env (tokenless 1000) = Some unauthorized
  /\ snd (step demo_env
            (run demo_env boot
               (Arrives (tokenless 0) (js "fresh-uuid") :: tokenless_burst))
            (Arrives (demo_request 20000 (Some (JStr (js "Hola"))))
               (js "fresh-uuid")))
     = Some too_many_requests.
Proof.
  split; [vm_compute; reflexivity|].
  apply budget_is_spent_before_the_token_check.
  - vm_compute; reflexivity.
  - exact I.
  - intros t H.
    assert (Hall : forallb (fun kt => (snd kt <? 60000)%Z)
                     (reaching_limiter demo_env tokenless_burst) = true)
      by (vm_compute; reflexivity).
    rewrite forallb_forall in Hall; apply Hall in H.
    apply Z.ltb_lt in H; exact H.
  - apply Nat.leb_le; vm_compute; reflexivity.
  - vm_compute; reflexivity.
  - reflexivity.
  - reflexivity.
Defined.

(** ** Answers after the call *)

Lemma completion_reply_unfold (c : json) :
  completion_reply (Some c)
  = match c with
    | JNull => None
    | _ =>
        match first_choice_content c with
        | None | Some JNull => Some fallback_reply
        | Some (JStr s) =>
            Some (if nonempty (trim s) then trim s else fallback_reply)
        | Some _ => None
        end
    end.
Proof.
  unfold completion_reply, first_choice_content, fallback_reply.
  destruct c; reflexivity.
Qed.

Lemma fallback_reply_valid :
  fallback_reply <> [] /\ trim fallback_reply = fallback_reply.
Proof. split; [discriminate | vm_compute; reflexivity]. Qed.

Lemma content_reply_valid (content : jsvalue) (answer : jsstring) :
  match content with
  | None | Some JNull => Some fallback_reply
  | Some (JStr s) =>
      Some (if nonempty (trim s) then trim s else fallback_reply)
  | Some _ => None
  end = Some answer ->
  answer <> [] /\ trim answer = answer.
Proof.
  destruct content as [[| | |s| |]|]; intros H;
    try (discriminate H);
    try (injection H as <-; exact fallback_reply_valid).
  destruct (nonempty (trim s)) eqn:Hne; injection H as <-.
  - split; [apply nonempty_true, Hne | apply trim_idem].
  - exact fallback_reply_valid.
Qed.

Lemma completion_reply_valid (completion : jsvalue) (answer : jsstring) :
  completion_reply completion = Some answer ->
  answer <> [] /\ trim answer = answer.
Proof.
  destruct completion as [c|]; [|intros H; discriminate H].
  rewrite completion_reply_unfold.
  destruct c; try (intros H; discriminate H);
    apply content_reply_valid.
Qed.

Lemma answer_shape sessions p outcome :
  chat_handler_after_await sessions p outcome = (sessions, generic_error)
  \/ exists answer,
       answer <> [] /\ trim answer = answer
       /\ chat_handler_after_await sessions p outcome
          = (Map_set (sid p)
               (trimmedHistory p
                  ++ [user_turn (text p); assistant_turn answer])
               sessions,
             {| status := 200; reply := Some answer;
                sessionId := Some (sid p) |}).
Proof.
  destruct outcome as [|completion]; [left; reflexivity|].
  destruct (completion_reply completion) as [answer|] eqn:Hc.
  - right; exists answer.
    destruct (completion_reply_valid _ Hc) as [Hne Htrim].
    repeat split; auto; apply after_await_replied, Hc.
  - left; apply after_await_failure; exact Hc.
Qed.

(** X9 (server.js, lines 185-207): when the call settles, the answer is
    either the generic 500, and then the session map is untouched, or a
    200 with a reply that is never empty and has no surrounding white
    space (the trimmed content of the first choice, or the fixed
    fallback), and then the map changes by exactly one [set] under the
    key of the request.  When that key is a string, it is the
    [sessionId] of the 200. *)
Theorem answer_after_the_call sessions p outcome :
  (snd (chat_handler_after_await sessions p outcome) = generic_error
   /\ fst (chat_handler_after_await sessions p outcome) = sessions)
  \/ (exists answer,
         answer <> [] /\ trim answer = answer
         /\ status (snd (chat_handler_after_await sessions p outcome)) = 200
         /\ reply (snd (chat_handler_after_await sessions p outcome))
            = Some answer
         /\ (forall k, sid p = JStr k ->
               sessionId (snd (chat_handler_after_await sessions p outcome))
               = Some (JStr k))
         /\ fst (chat_handler_after_await sessions p outcome)
            = Map_set (sid p)
                (trimmedHistory p
                   ++ [user_turn (text p); assistant_turn answer])
                sessions).
Proof.
  destruct (answer_shape sessions p outcome)
    as [Heq | (answer & Hne & Htrim & Heq)]; rewrite Heq.
  - left; split; reflexivity.
  - right; exists answer; cbn [fst snd status reply sessionId].
    repeat split; try assumption.
    intros k Hk; rewrite Hk; reflexivity.
Qed.

(** ** What the stored histories are made of *)

Lemma exchanges_ind2 (P : list turn -> Prop) :
  P [] ->
  (forall u a rest,
      role_eqb (role u) user = true -> valid_text (content u) = true ->
      role_eqb (role a) assistant = true -> valid_reply (content a) = true ->
      exchanges rest = true -> P rest -> P (u :: a :: rest)) ->
  forall h, exchanges h = true -> P h.
Proof.
  intros H0 H2.
  assert (Hn : forall n h, length h <= n -> exchanges h = true -> P h).
  { induction n as [|n IH]; intros [|u [|a rest]] Hlen Hex;
      cbn [exchanges length] in *; try discriminate; try exact H0; try lia.
    apply andb_true_iff in Hex; destruct Hex as [Hex Hrest].
    apply andb_true_iff in Hex; destruct Hex as [Hex Hreply].
    apply andb_true_iff in Hex; destruct Hex as [Hex Ha].
    apply andb_true_iff in Hex; destruct Hex as [Hu Htext].
    apply H2; auto; apply IH; [lia | exact Hrest]. }
  intros h; apply (Hn (length h)); lia.
Qed.

Lemma exchanges_even (h : list turn) :
  exchanges h = true -> Nat.Even (length h).
Proof.
  apply exchanges_ind2 with (P := fun h => Nat.Even (length h)).
  - exists 0; reflexivity.
  - intros u a rest _ _ _ _ _ [k Hk]; exists (S k); simpl; lia.
Qed.

Lemma exchanges_skipn (k : nat) : forall h,
  exchanges h = true -> exchanges (skipn (2 * k) h) = true.
Proof.
  induction k as [|k IH]; intros h Hex; [exact Hex|].
  replace (2 * S k) with (S (S (2 * k))) by lia.
  destruct h as [|u [|a rest]]; cbn [skipn]; [exact Hex | discriminate|].
  apply IH; cbn [exchanges] in Hex.
  apply andb_true_iff in Hex; destruct Hex as [_ Hrest]; exact Hrest.
Qed.

Lemma exchanges_slice_last (h : list turn) :
  exchanges h = true -> exchanges (slice_last 12 h) = true.
Proof.
  intros Hex; destruct (exchanges_even h Hex) as [m Hm].
  unfold slice_last; replace (length h - 12) with (2 * (m - 6)) by lia.
  apply exchanges_skipn, Hex.
Qed.

Lemma exchanges_extend (h : list turn) (t r : jsstring) :
  exchanges h = true -> valid_text t = true -> valid_reply r = true ->
  exchanges (h ++ [user_turn t; assistant_turn r]) = true.
Proof.
  intros Hex Ht Hr; revert h Hex.
  apply exchanges_ind2.
  - cbn [Datatypes.app exchanges user_turn assistant_turn role content role_eqb].
    rewrite Ht, Hr; reflexivity.
  - intros u a rest Hu Htu Ha Hra _ IH.
    cbn [Datatypes.app exchanges]; rewrite Hu, Htu, Ha, Hra, IH; reflexivity.
Qed.

Lemma exchanges_no_system (h : list turn) :
  exchanges h = true ->
  filter (fun m => role_eqb (role m) system) h = [].
Proof.
  apply exchanges_ind2 with
    (P := fun h => filter (fun m => role_eqb (role m) system) h = []).
  - reflexivity.
  - intros u a rest Hu _ Ha _ _ IH; cbn [filter].
    destruct (role u), (role a); try discriminate; exact IH.
Qed.

Lemma valid_text_intro (t : jsstring) :
  t <> [] -> length t <= 2000 -> trim t = t -> valid_text t = true.
Proof.
  intros Hne Hlen Htrim; unfold valid_text.
  rewrite (proj2 (nonempty_true t) Hne), (proj2 (Nat.leb_le _ _) Hlen), Htrim.
  rewrite jsstring_eqb_refl; reflexivity.
Qed.

Lemma valid_reply_intro (r : jsstring) :
  r <> [] -> trim r = r -> valid_reply r = true.
Proof.
  intros Hne Htrim; unfold valid_reply.
  rewrite (proj2 (nonempty_true r) Hne), Htrim, jsstring_eqb_refl.
  reflexivity.
Qed.

Lemma message_text_trimmed (req : request) (t : jsstring) :
  message_text req = Some t -> trim t = t.
Proof.
  unfold message_text; destruct (ToString _) as [coerced|]; simpl;
    [|discriminate].
  intros [= <-]; apply trim_idem.
Qed.

Lemma pending_text_valid E sessions req uuid p :
  chat_handler_before_await E sessions req uuid = Await p ->
  valid_text (text p) = true.
Proof.
  intros H; apply before_await_inv in H.
  destruct H as (_ & _ & Htext & Hne & Hlen & _).
  apply valid_text_intro;
    [apply nonempty_true, Hne | exact Hlen
    | eapply message_text_trimmed; eauto].
Qed.

Lemma pending_history_exchanges E sessions req uuid p :
  Forall (fun kh => exchanges (snd kh) = true) sessions ->
  chat_handler_before_await E sessions req uuid = Await p ->
  exchanges (trimmedHistory p) = true.
Proof.
  intros Hall H; apply before_await_inv in H.
  destruct H as (_ & _ & _ & _ & _ & _ & Htrim & _).
  rewrite Htrim; apply exchanges_slice_last.
  unfold history_of; destruct (Map_get (sid p) sessions) as [h|] eqn:Hget;
    [|reflexivity].
  exact (@Map_get_Forall (fun h => exchanges h = true) _ _ _ Hall Hget).
Qed.

Lemma step_keeps_conversations E st ev :
  conversations_ok st -> conversations_ok (fst (step E st ev)).
Proof.
  intros [Hs Hp]; destruct ev as [req uuid | i outcome]; cbn [step].
  - destruct (app E (limiter_of st) (sessions_of st) req uuid)
      as [L' [r|p]] eqn:Happ; split; cbn [fst sessions_of in_flight]; auto.
    apply Forall_app; split; [exact Hp|].
    apply app_sends in Happ.
    constructor; [|constructor]; split.
    + eapply pending_history_exchanges; eauto.
    + eapply pending_text_valid; eauto.
  - destruct (nth_error (in_flight st) i) as [p|] eqn:Hnth;
      [|split; assumption].
    assert (Hpok : exchanges (trimmedHistory p) = true
                   /\ valid_text (text p) = true).
    { apply nth_error_In in Hnth.
      rewrite Forall_forall in Hp; apply Hp; exact Hnth. }
    destruct (answer_shape (sessions_of st) p outcome)
      as [Heq | (answer & Hne & Htrim & Heq)]; rewrite Heq;
      split; cbn [fst sessions_of in_flight];
      try (apply Forall_remove_nth; exact Hp); [exact Hs|].
    apply (@Map_set_Forall (fun h => exchanges h = true)); [exact Hs|].
    destruct Hpok as [Hh Ht]; apply exchanges_extend; auto.
    apply valid_reply_intro; assumption.
Qed.

Lemma run_keeps_conversations E evs : conversations_ok (run E boot evs).
Proof.
  assert (H : forall st, reachable E st -> conversations_ok st).
  { induction 1 as [|st ev _ IH];
      [split; constructor | apply step_keeps_conversations, IH]. }
  apply H, reachable_run, reachable_boot.
Qed.

(** X10 (server.js, lines 162-199): in every state the server can
    reach, every stored history is a sequence of exchanges: a user turn
    whose text is not empty, has at most 2000 code units and no
    surrounding white space, followed by an assistant turn whose reply
    is not empty and has no surrounding white space.  No system turn is
    ever stored. *)
Theorem stored_histories_are_exchanges (E : env) (evs : list event) :
  Forall (fun kh => exchanges (snd kh) = true
                    /\ filter (fun m => role_eqb (role m) system) (snd kh) = [])
    (sessions_of (run E boot evs)).
Proof.
  destruct (run_keeps_conversations E evs) as [Hs _].
  eapply Forall_impl; [|exact Hs].
  intros kh Hex; split; [exact Hex | apply exchanges_no_system, Hex].
Qed.

(** X11 (server.js, lines 175-189): whenever the provider is called, in
    any reachable state, the list it receives is the system message,
    then at most 12 stored turns that form whole exchanges, then the new
    user turn with a valid text: at most 14 messages, of which exactly
    one, the first, has the system role. *)
Theorem prompt_is_system_exchanges_user E evs req uuid L' p :
  app E (limiter_of (run E boot evs)) (sessions_of (run E boot evs)) req uuid
  = (L', Await p) ->
  messages p = system_message :: trimmedHistory p ++ [user_turn (text p)]
  /\ exchanges (trimmedHistory p) = true
  /\ length (trimmedHistory p) <= 12
  /\ valid_text (text p) = true
  /\ length (messages p) <= 14
  /\ filter (fun m => role_eqb (role m) system) (messages p)
     = [system_message].
Proof.
  intros Happ; apply app_sends in Happ.
  destruct (run_keeps_conversations E evs) as [Hs _].
  assert (Hex : exchanges (trimmedHistory p) = true)
    by (eapply pending_history_exchanges; eauto).
  assert (Htext : valid_text (text p) = true)
    by (eapply pending_text_valid; eauto).
  destruct (before_await_inv _ _ _ _ Happ)
    as (_ & _ & _ & _ & _ & _ & Htrim & Hmsgs).
  assert (Hlen : length (trimmedHistory p) <= 12)
    by (rewrite Htrim; apply slice_last_bound).
  repeat split; auto.
  - rewrite Hmsgs; cbn [length]; rewrite length_app; cbn [length]; lia.
  - rewrite Hmsgs; cbn [filter role role_eqb].
    rewrite filter_app, (exchanges_no_system _ Hex); reflexivity.
Qed.

Lemma prompt_is_system_exchanges_user_witness :
  app demo_env (limiter_of (run demo_env boot []))
    (sessions_of (run demo_env boot [])) hola (js "fresh-uuid")
  = ([(js "203.0.113.7", {| hits := 1; resetTime := 60000 |})],
     Await hola_pending)
  /\ length (messages hola_pending) <= 14.
Proof.
  assert (H : app demo_env (limiter_of (run demo_env boot []))
                (sessions_of (run demo_env boot [])) hola (js "fresh-uuid")
              = ([(js "203.0.113.7", {| hits := 1; resetTime := 60000 |})],
                 Await hola_pending)) by (vm_compute; reflexivity).
  split; [exact H|].
  exact (proj1 (proj2 (proj2 (proj2 (proj2
           (@prompt_is_system_exchanges_user demo_env [] hola
              (js "fresh-uuid") _ hola_pending H)))))).
Defined.

(** ** Sessions next to each other *)

Lemma Map_get_set_other (k k' : json) (h : list turn) (m : session_map) :
  k <> k' -> Map_get k' (Map_set k h m) = Map_get k' m.
Proof.
  intros Hneq; induction m as [|[a h'] m IH]; cbn [Map_set Map_get].
  - destruct (same_key k k') eqn:Hk; [|reflexivity].
    apply same_key_eq in Hk; contradiction.
  - destruct (same_key a k) eqn:Ha; cbn [Map_get].
    + destruct (same_key a k') eqn:Ha'; [|reflexivity].
      apply same_key_eq in Ha, Ha'; congruence.
    + rewrite IH; reflexivity.
Qed.

(** X12 (server.js, lines 175-199): a request changes the history of no
    session but its own.  An arrival changes no history at all, and when
    a call settles, the history read under any key other than the key of
    that request is what it was. *)
Theorem other_sessions_are_untouched E st ev (k' : json) :
  (forall i outcome p,
      ev = Settles i outcome ->
      nth_error (in_flight st) i = Some p -> sid p <> k') ->
  history_of k' (sessions_of (fst (step E st ev)))
  = history_of k' (sessions_of st).
Proof.
  intros Hother; destruct ev as [req uuid | i outcome].
  - rewrite arrival_keeps_sessions; reflexivity.
  - cbn [step].
    destruct (nth_error (in_flight st) i) as [p|] eqn:Hnth; [|reflexivity].
    specialize (Hother i outcome p eq_refl Hnth).
    destruct (answer_shape (sessions_of st) p outcome)
      as [Heq | (answer & _ & _ & Heq)]; rewrite Heq;
      cbn [fst sessions_of]; [reflexivity|].
    unfold history_of; rewrite Map_get_set_other by exact Hother.
    reflexivity.
Qed.

Lemma other_sessions_are_untouched_witness :
  history_of other_key
    (sessions_of
       (fst (step demo_env
               {| sessions_of := one_stored; limiter_of := [];
                  in_flight := [hola_pending] |}
               (Settles 0 (Resolved (demo_completion (js "Buenas")))))))
  = history_of other_key one_stored.
Proof.
  apply (@other_sessions_are_untouched demo_env
           {| sessions_of := one_stored; limiter_of := [];
              in_flight := [hola_pending] |}
           (Settles 0 (Resolved (demo_completion (js "Buenas")))) other_key).
  intros i outcome p [= <- _]; cbn [in_flight nth_error].
  intros [= <-]; vm_compute; discriminate.
Defined.

Lemma slice_last_app2 {A : Type} (n : nat) (X : list A) (u a : A) :
  slice_last (S (S n)) (X ++ [u; a]) = slice_last n X ++ [u; a].
Proof.
  unfold slice_last; rewrite length_app; cbn [length].
  replace (length X + 2 - S (S n)) with (length X - n) by lia.
  rewrite skipn_app.
  replace (length X - n - length X) with 0 by lia; reflexivity.
Qed.

(** X13 (server.js, lines 175-199): a conversation goes on.  After an
    answered request has written its session, under a key that is a
    string, a number or [true], the next admitted request with that key
    sends the provider the system message, the last 10 turns of what the
    first had read, the first request's user turn and reply, and its own
    user turn. *)
Theorem next_prompt_continues
    E sessions p completion answer req uuid q :
  completion_reply completion = Some answer ->
  same_key (sid p) (sid p) = true ->
  chat_handler_before_await E
    (fst (chat_handler_after_await sessions p (Resolved completion)))
    req uuid = Await q ->
  sid q = sid p ->
  messages q
  = system_message
      :: slice_last 10 (trimmedHistory p)
      ++ [user_turn (text p); assistant_turn answer; user_turn (text q)].
Proof.
  intros Hans Hprim Hq Hsame.
  rewrite (after_await_replied sessions p completion Hans) in Hq.
  cbn [fst] in Hq.
  destruct (before_await_inv _ _ _ _ Hq)
    as (_ & _ & _ & _ & _ & _ & Htrim & Hmsgs).
  rewrite Hmsgs, Htrim, Hsame; unfold history_of.
  rewrite (Map_get_set _ _ _ Hprim), slice_last_app2, <- app_assoc.
  reflexivity.
Qed.

Lemma next_prompt_continues_witness :
  messages
    {| sid := demo_key;
       trimmedHistory := [user_turn (js "Hola"); assistant_turn (js "Buenas")];
       text := js "Hola";
       messages := system_message
                     :: [user_turn (js "Hola"); assistant_turn (js "Buenas")]
                     ++ [user_turn (js "Hola")] |}
  = system_message
      :: slice_last 10 (trimmedHistory hola_pending)
      ++ [user_turn (text hola_pending); assistant_turn (js "Buenas");
          user_turn (js "Hola")].
Proof.
  apply (@next_prompt_continues demo_env [] hola_pending
           (demo_completion (js "Buenas")) (js "Buenas")
           (demo_request 1000 (Some (JStr (js "Hola")))) (js "fresh-uuid"));
    vm_compute; reflexivity.
Defined.

(** X14 (server.js, lines 175-199): the last writer wins.  When two
    requests of one session (key a string, a number or [true]) are both
    read against the same map, and both calls then succeed, the history
    left under the key is what the second to settle had read, trimmed to
    12, plus its own exchange: the exchange of the first to settle is
    not in it unless it was stored before either arrived. *)
Theorem concurrent_requests_last_writer_wins
    E sessions reqA uuidA reqB uuidB pA pB cA aA cB aB :
  chat_handler_before_await E sessions reqA uuidA = Await pA ->
  chat_handler_before_await E sessions reqB uuidB = Await pB ->
  sid pA = sid pB ->
  same_key (sid pB) (sid pB) = true ->
  completion_reply cA = Some aA ->
  completion_reply cB = Some aB ->
  history_of (sid pB)
    (fst (chat_handler_after_await
            (fst (chat_handler_after_await sessions pA (Resolved cA)))
            pB (Resolved cB)))
  = slice_last 12 (history_of (sid pB) sessions)
      ++ [user_turn (text pB); assistant_turn aB].
Proof.
  intros HA HB Hsame Hprim HcA HcB.
  rewrite (after_await_replied _ pB cB HcB); cbn [fst].
  unfold history_of at 1; rewrite (Map_get_set _ _ _ Hprim).
  destruct (before_await_inv _ _ _ _ HB)
    as (_ & _ & _ & _ & _ & _ & Htrim & _).
  rewrite Htrim; reflexivity.
Qed.

Lemma concurrent_requests_last_writer_wins_witness :
  history_of demo_key
    (fst (chat_handler_after_await
            (fst (chat_handler_after_await [] hola_pending
                    (Resolved (demo_completion (js "Primera")))))
            hola_pending (Resolved (demo_completion (js "Segunda")))))
  = slice_last 12 (history_of demo_key [])
      ++ [user_turn (js "Hola"); assistant_turn (js "Segunda")].
Proof.
  apply (@concurrent_requests_last_writer_wins demo_env [] hola
           (js "fresh-uuid") hola (js "fresh-uuid") hola_pending hola_pending
           (demo_completion (js "Primera")) (js "Primera")
           (demo_completion (js "Segunda")) (js "Segunda"));
    vm_compute; reflexivity.
Defined.

Lemma Map_get_by_reference (k : json) (m : session_map) :
  same_key k k = false -> Map_get k m = None.
Proof.
  intros Hk; induction m as [|[a h] m IH]; cbn [Map_get]; [reflexivity|].
  destruct (same_key a k) eqn:Ha; [|exact IH].
  pose proof (same_key_eq _ _ Ha) as Heq; subst a; congruence.
Qed.

Lemma Map_set_by_reference (k : json) (h : list turn) (m : session_map) :
  same_key k k = false -> Map_set k h m = m ++ [(k, h)].
Proof.
  intros Hk; induction m as [|[a h'] m IH]; cbn [Map_set Datatypes.app];
    [reflexivity|].
  destruct (same_key a k) eqn:Ha; [|rewrite IH; reflexivity].
  pose proof (same_key_eq _ _ Ha) as Heq; subst a; congruence.
Qed.

(** X15 (server.js, lines 175-199): a [sessionId] that is a JSON array
    or object is accepted as a key but never finds a history, since a
    [Map] compares such keys by identity and each request parses its own
    body: the request is sent with the system message and its user turn
    only, and if it is answered the map gains one more entry, which no
    later request can read. *)
Theorem array_or_object_session_never_continues
    E sessions req uuid p :
  chat_handler_before_await E sessions req uuid = Await p ->
  ((exists items, body_field (js "sessionId") req = Some (JArr items))
   \/ (exists members, body_field (js "sessionId") req = Some (JObj members))) ->
  trimmedHistory p = []
  /\ messages p = [system_message; user_turn (text p)]
  /\ forall later completion answer,
       completion_reply completion = Some answer ->
       fst (chat_handler_after_await later p (Resolved completion))
       = later ++ [(sid p, [user_turn (text p); assistant_turn answer])]
       /\ Map_get (sid p)
            (fst (chat_handler_after_await later p (Resolved completion)))
          = None.
Proof.
  intros Hp Hkey.
  destruct (before_await_inv _ _ _ _ Hp)
    as (_ & _ & _ & _ & _ & Hsid & Htrim & Hmsgs).
  assert (Href : same_key (sid p) (sid p) = false).
  { rewrite Hsid; destruct Hkey as [(items & ->) | (members & ->)];
      reflexivity. }
  assert (Hempty : trimmedHistory p = []).
  { rewrite Htrim; unfold history_of.
    rewrite (Map_get_by_reference _ sessions Href); reflexivity. }
  split; [exact Hempty|]; split; [rewrite Hmsgs, Hempty; reflexivity|].
  intros later completion answer Hans.
  rewrite (after_await_replied later p completion Hans); cbn [fst].
  rewrite Hempty; cbn [Datatypes.app]; split.
  - apply Map_set_by_reference, Href.
  - apply Map_get_by_reference, Href.
Qed.

Lemma array_or_object_session_never_continues_witness :
  chat_handler_before_await demo_env one_stored array_key_request
    (js "fresh-uuid") = Await array_key_pending
  /\ trimmedHistory array_key_pending = [].
Proof.
  assert (H : chat_handler_before_await demo_env one_stored array_key_request
                (js "fresh-uuid") = Await array_key_pending)
    by (vm_compute; reflexivity).
  split; [exact H|].
  refine (proj1 (@array_or_object_session_never_continues demo_env one_stored
                   array_key_request (js "fresh-uuid") array_key_pending H _)).
  left; eexists; vm_compute; reflexivity.
Defined.

(** ** Messages that are not plain text *)

Lemma message_text_of_string (req : request) (s : jsstring) :
  body_field (js "message") req = Some (JStr s) ->
  message_text req = Some (trim s).
Proof.
  intros Hmsg; unfold message_text, js_or; rewrite Hmsg.
  destruct s as [|c s]; reflexivity.
Qed.

(** X16 (server.js, line 162): the text the handler goes on with, for a
    message that is a string, is the message without the white space at
    its two ends and nothing else: the message is white space, the text,
    white space, and the text neither starts nor ends with white
    space. *)
Theorem text_is_message_without_margins (req : request) (s : jsstring) :
  body_field (js "message") req = Some (JStr s) ->
  message_text req = Some (trim s)
  /\ (exists pre post,
         s = pre ++ trim s ++ post
         /\ blank pre = true /\ blank post = true)
  /\ (forall c r, trim s = c :: r -> is_whitespace c = false)
  /\ (forall r c, trim s = r ++ [c] -> is_whitespace c = false).
Proof.
  intros Hmsg; split; [apply message_text_of_string, Hmsg|].
  split; [apply trim_decomp|]; split.
  - intros c r H; eapply trim_head; eauto.
  - intros r c H; eapply trim_last; eauto.
Qed.

Lemma text_is_message_without_margins_witness :
  message_text (demo_request 0 (Some (JStr (js "  Hola
 "))))
  = Some (trim (js "  Hola
 "))
  /\ trim (js "  Hola
 ") = js "Hola".
Proof.
  split; [|vm_compute; reflexivity].
  refine (proj1 (@text_is_message_without_margins
                   (demo_request 0 (Some (JStr (js "  Hola
 "))))
                   (js "  Hola
 ") _)).
  vm_compute; reflexivity.
Defined.

(** X17 (server.js, lines 162-173 and 202-207): among the requests that
    reach the message checks of the handler, a message that is a JSON
    object is never read as text.  If it has a member called [toString]
    the coercion throws and the answer is the generic 500; otherwise the
    request is sent to the provider with the text [[object Object]].
    A message that is the empty array coerces to the empty string and is
    answered 400 as an empty message. *)
Theorem object_and_array_messages E sessions req uuid :
  isAllowedOrigin E (origin_header req) = true ->
  truthy_str (OPENAI_API_KEY E) = true ->
  (forall members,
      body_field (js "message") req = Some (JObj members) ->
      (has_own (js "toString") members = true ->
       chat_handler_before_await E sessions req uuid = Done generic_error)
      /\ (has_own (js "toString") members = false ->
          exists p, chat_handler_before_await E sessions req uuid = Await p
                    /\ text p = object_text))
  /\ (body_field (js "message") req = Some (JArr []) ->
      chat_handler_before_await E sessions req uuid = Done empty_message).
Proof.
  intros Horigin Hkey; split.
  - intros members Hmsg; split; intros Hown.
    + unfold chat_handler_before_await; cbv zeta.
      rewrite Horigin, Hkey; cbn [negb]; unfold js_or; rewrite Hmsg.
      cbn [truthy ToString]; rewrite Hown; reflexivity.
    + assert (Htext : message_text req = Some object_text).
      { unfold message_text, js_or; rewrite Hmsg.
        cbn [truthy ToString]; rewrite Hown; vm_compute; reflexivity. }
      rewrite (validation E sessions req uuid Horigin Hkey Htext).
      eexists; split; reflexivity.
  - intros Hmsg.
    assert (Htext : message_text req = Some []).
    { unfold message_text, js_or; rewrite Hmsg; reflexivity. }
    rewrite (validation E sessions req uuid Horigin Hkey Htext).
    reflexivity.
Qed.

Lemma object_and_array_messages_witness :
  chat_handler_before_await demo_env []
    (demo_request 0 (Some (JObj [(js "toString", JStr (js "x"))])))
    (js "fresh-uuid") = Done generic_error
  /\ chat_handler_before_await demo_env []
       (demo_request 0 (Some (JArr []))) (js "fresh-uuid")
     = Done empty_message.
Proof.
  split.
  - refine (proj1 (proj1 (@object_and_array_messages demo_env []
                            (demo_request 0
                               (Some (JObj [(js "toString", JStr (js "x"))])))
                            (js "fresh-uuid") _ _)
                     [(js "toString", JStr (js "x"))] _) _);
      vm_compute; reflexivity.
  - refine (proj2 (@object_and_array_messages demo_env []
                     (demo_request 0 (Some (JArr []))) (js "fresh-uuid") _ _)
              _);
      vm_compute; reflexivity.
Defined.

(** * The earlier revisions *)

Lemma Permissive_finalAllowed (E : env) :
  Permissive.finalAllowed E = allowedOrigins E.
Proof. reflexivity. Qed.

Lemma Permissive_cors_iff (E : env) (origin : option jsstring) :
  Permissive.cors_origin E origin = None
  <-> truthy_str origin = false \/ isAllowedOrigin E origin = true.
Proof.
  unfold Permissive.cors_origin; rewrite Permissive_finalAllowed.
  destruct origin as [[|c o]|]; cbn [nonempty negb truthy_str isAllowedOrigin andb];
    try (split; auto; fail).
  destruct (has (allowedOrigins E) (c :: o)); split; intros H; auto;
    try discriminate H; destruct H as [H | H]; discriminate H.
Qed.

Lemma Permissive_error_handler_cors :
  Permissive.error_handler (js "CORS: origen no permitido") = forbidden_origin.
Proof. reflexivity. Qed.

Lemma Permissive_validation E sessions req uuid t :
  truthy_str (OPENAI_API_KEY E) = true ->
  message_text req = Some t ->
  Permissive.chat_handler_before_await E sessions req uuid
  = if negb (nonempty t) then Done empty_message
    else if 2000 <? length t then Done message_too_long
    else Await
           {| sid := js_or (body_field (js "sessionId") req) (JStr uuid);
              trimmedHistory :=
                slice_last 12
                  (history_of
                     (js_or (body_field (js "sessionId") req) (JStr uuid))
                     sessions);
              text := t;
              messages :=
                {| role := system; content := Permissive.systemPrompt |}
                  :: slice_last 12
                       (history_of
                          (js_or (body_field (js "sessionId") req) (JStr uuid))
                          sessions)
                  ++ [user_turn t] |}.
Proof.
  intros Hkey; unfold message_text, Permissive.chat_handler_before_await.
  rewrite Hkey; cbn [negb].
  destruct (ToString _) as [coerced|]; cbn [option_map]; [|discriminate].
  intros [= <-]; reflexivity.
Qed.

Lemma Permissive_no_text E sessions req uuid :
  message_text req = None ->
  Permissive.chat_handler_before_await E sessions req uuid
  = if negb (truthy_str (OPENAI_API_KEY E)) then Done missing_api_key
    else Done generic_error.
Proof.
  unfold message_text, Permissive.chat_handler_before_await.
  destruct (ToString _) as [coerced|]; cbn [option_map]; [discriminate|].
  intros _; reflexivity.
Qed.

Lemma hardened_no_text E sessions req uuid :
  isAllowedOrigin E (origin_header req) = true ->
  message_text req = None ->
  chat_handler_before_await E sessions req uuid
  = if negb (truthy_str (OPENAI_API_KEY E)) then Done missing_api_key
    else Done generic_error.
Proof.
  unfold message_text, chat_handler_before_await; intros ->; cbn [negb].
  destruct (ToString _) as [coerced|]; cbn [option_map]; [discriminate|].
  intros _; reflexivity.
Qed.

Lemma handlers_agree E sessions req uuid :
  isAllowedOrigin E (origin_header req) = true ->
  same_but_prompt (chat_handler_before_await E sessions req uuid)
    (Permissive.chat_handler_before_await E sessions req uuid).
Proof.
  intros Hok.
  destruct (message_text req) as [t|] eqn:Htext.
  - destruct (truthy_str (OPENAI_API_KEY E)) eqn:Hkey.
    + rewrite (validation E sessions req uuid Hok Hkey Htext),
        (Permissive_validation E sessions req uuid Hkey Htext).
      destruct (negb (nonempty t)); [reflexivity|].
      destruct (2000 <? length t); [reflexivity|].
      cbn [same_but_prompt sid trimmedHistory text messages tl]; auto.
    + unfold chat_handler_before_await, Permissive.chat_handler_before_await.
      rewrite Hok, Hkey; reflexivity.
  - rewrite (hardened_no_text E sessions req uuid Hok Htext),
      (Permissive_no_text E sessions req uuid Htext).
    destruct (negb (truthy_str (OPENAI_API_KEY E))); reflexivity.
Qed.

(** X18 (src/unnamed/part_000 against server.js): the two revisions
    differ on the requests without an Origin and on nothing else but the
    text of the system prompt.  A request whose Origin is missing or
    empty is answered 403 by server.js and goes on to the limiter and
    the route in the earlier revision; a request whose Origin is present
    and not allowed is answered the same 403 by both; and for a request
    whose Origin is allowed both leave the limiter in the same state and
    give the same answer, or call the provider for the same session with
    the same history and text. *)
Theorem revisions_differ_on_missing_origin_only E L sessions req uuid :
  (truthy_str (origin_header req) = false ->
   app E L sessions req uuid = (L, Done forbidden_origin)
   /\ Permissive.app E L sessions req uuid
      = (fst (chatLimiter L (ip req) (arrival req)),
         if snd (chatLimiter L (ip req) (arrival req))
         then Permissive.post_api_chat E sessions req uuid
         else Done too_many_requests))
  /\ (truthy_str (origin_header req) = true ->
      isAllowedOrigin E (origin_header req) = false ->
      app E L sessions req uuid = (L, Done forbidden_origin)
      /\ Permissive.app E L sessions req uuid = (L, Done forbidden_origin))
  /\ (isAllowedOrigin E (origin_header req) = true ->
      fst (app E L sessions req uuid)
      = fst (Permissive.app E L sessions req uuid)
      /\ same_but_prompt (snd (app E L sessions req uuid))
           (snd (Permissive.app E L sessions req uuid))).
Proof.
  split; [|split].
  - intros Hnone.
    assert (Hnot : isAllowedOrigin E (origin_header req) = false).
    { destruct (origin_header req) as [[|c o]|]; try reflexivity.
      discriminate Hnone. }
    split; [apply app_origin_refused, Hnot|].
    unfold Permissive.app.
    rewrite (proj2 (Permissive_cors_iff E (origin_header req))
               (or_introl Hnone)).
    destruct (chatLimiter L (ip req) (arrival req)) as [L' [|]]; reflexivity.
  - intros Hsome Hnot; split; [apply app_origin_refused, Hnot|].
    unfold Permissive.app.
    destruct (Permissive.cors_origin E (origin_header req)) as [err|] eqn:Hc.
    + unfold Permissive.cors_origin in Hc.
      destruct (origin_header req) as [[|c o]|]; try discriminate.
      cbn [nonempty negb] in Hc.
      destruct (has (Permissive.finalAllowed E) (c :: o)); [discriminate|].
      injection Hc as <-; rewrite Permissive_error_handler_cors; reflexivity.
    + apply Permissive_cors_iff in Hc; destruct Hc; congruence.
  - intros Hok.
    rewrite (app_origin_allowed E L sessions req uuid Hok).
    unfold Permissive.app.
    rewrite (proj2 (Permissive_cors_iff E (origin_header req))
               (or_intror Hok)).
    destruct (chatLimiter L (ip req) (arrival req)) as [L' [|]];
      cbn [fst snd]; split; try reflexivity.
    unfold post_api_chat, Permissive.post_api_chat.
    destruct (requireWidgetToken E req); [reflexivity|].
    apply handlers_agree, Hok.
Qed.

Lemma revisions_differ_on_missing_origin_only_witness :
  truthy_str (origin_header blank_request) = false
  /\ app demo_env [] [] blank_request (js "fresh-uuid")
     = ([], Done forbidden_origin)
  /\ Permissive.app demo_env [] [] blank_request (js "fresh-uuid")
     = ([(js "203.0.113.7", {| hits := 1; resetTime := 60000 |})],
        Done empty_message).
Proof.
  destruct (proj1 (@revisions_differ_on_missing_origin_only demo_env [] []
                     blank_request (js "fresh-uuid")) eq_refl) as [Hh Hp].
  split; [reflexivity|]; split; [exact Hh|].
  rewrite Hp; vm_compute; reflexivity.
Defined.



